(** * mouse-tool (src/main.c): a shallow embedding of the SGR decoder, the
    multiclick handler, the main capture loop and the JSON printers. *)

From Stdlib Require Import ZArith List Bool Ascii String Lia.
Import ListNotations.
Open Scope Z_scope.

(** ** C integers *)

Definition INT_MIN : Z := - 2 ^ 31.
Definition INT_MAX : Z := 2 ^ 31 - 1.
Definition LONG_MIN : Z := - 2 ^ 63.
Definition LONG_MAX : Z := 2 ^ 63 - 1.

(** A 32-bit [int] result, wrapped modulo 2^32 as two's complement.  This is
    what gcc does for the [(int)] casts of [long] values and what the
    generated code does for overflowing [int] arithmetic. *)
Definition wrap32 (z : Z) : Z := (z + 2 ^ 31) mod 2 ^ 32 - 2 ^ 31.

Definition int_sub (a b : Z) : Z := wrap32 (a - b).
Definition int_add (a b : Z) : Z := wrap32 (a + b).
Definition int_mul (a b : Z) : Z := wrap32 (a * b).

(** ** Characters *)

Definition ESC : ascii := ascii_of_nat 27.
Definition CR : ascii := ascii_of_nat 13.
Definition LF : ascii := ascii_of_nat 10.
Definition NUL : ascii := ascii_of_nat 0.

Definition is_digit (c : ascii) : bool :=
  let n := nat_of_ascii c in (48 <=? n)%nat && (n <=? 57)%nat.

Definition digit_val (c : ascii) : Z := Z.of_nat (nat_of_ascii c) - 48.

(** [isspace] in the C locale: space, \t, \n, \v, \f, \r. *)
Definition is_space (c : ascii) : bool :=
  let n := nat_of_ascii c in (n =? 32)%nat || ((9 <=? n)%nat && (n <=? 13)%nat).

(** ** strtol(s, &end, 10) *)

Fixpoint skip_spaces (s : list ascii) : list ascii :=
  match s with
  | c :: r => if is_space c then skip_spaces r else s
  | [] => []
  end.

Fixpoint take_digits (s : list ascii) : list ascii :=
  match s with
  | c :: r => if is_digit c then c :: take_digits r else []
  | [] => []
  end.

Definition digits_value (d : list ascii) : Z :=
  fold_left (fun acc c => acc * 10 + digit_val c) d 0.

(** [Some v] when at least one digit is converted ([end != s]), with [v]
    the mathematical value; [None] when no digit is found ([end == s]).
    Values outside [long] make strtol set [errno = ERANGE]; the caller
    checks that with [in_long]. *)
Definition strtol10 (s : list ascii) : option Z :=
  let s1 := skip_spaces s in
  let '(sign, s2) :=
    match s1 with
    | c :: r => if Ascii.eqb c "+"%char then (1, r)
                else if Ascii.eqb c "-"%char then (-1, r) else (1, s1)
    | [] => (1, s1)
    end in
  match take_digits s2 with
  | [] => None
  | d => Some (sign * digits_value d)
  end.

Definition in_long (v : Z) : bool := (LONG_MIN <=? v) && (v <=? LONG_MAX).

(** [strtol(s, &end, 10)] with the end pointer: [Some (v, rest)] where
    [rest] is what [end] points to; [None] when [end == s]. *)
Definition strtol10_end (s : list ascii) : option (Z * list ascii) :=
  let s1 := skip_spaces s in
  let '(sign, s2) :=
    match s1 with
    | c :: r => if Ascii.eqb c "+"%char then (1, r)
                else if Ascii.eqb c "-"%char then (-1, r) else (1, s1)
    | [] => (1, s1)
    end in
  match take_digits s2 with
  | [] => None
  | d => Some (sign * digits_value d, skipn (List.length d) s2)
  end.

(** ** parse_positive_int *)

(** [parse_positive_int(s, &v)] on a (non-NULL) C string: [Some v] when it
    returns 1.  Rejected: [errno] set (out of [long]), [end == s],
    [*end != '\0'], [v <= 0]. *)
Definition parse_positive_int (s : list ascii) : option Z :=
  match strtol10_end s with
  | Some (v, rest) =>
      if negb (in_long v) || negb (match rest with [] => true | _ => false end) || (v <=? 0)
      then None else Some v
  | None => None
  end.

(** ** parse_sgr *)

(** The C string in [tmp]: everything up to the first NUL byte. *)
Fixpoint cstr (s : list ascii) : list ascii :=
  match s with
  | c :: r => if Ascii.eqb c NUL then [] else c :: cstr r
  | [] => []
  end.

(** [strchr(p, ';')] followed by [*s++ = '\0']: the part before the first
    semicolon and the part after it. *)
Fixpoint split_semi (s : list ascii) : option (list ascii * list ascii) :=
  match s with
  | c :: r =>
      if Ascii.eqb c ";"%char then Some ([], r)
      else match split_semi r with
           | Some (a, b) => Some (c :: a, b)
           | None => None
           end
  | [] => None
  end.

Definition SGR_BUF : nat := 128.

(** [parse_sgr buf len &cb &cx &cy &termch]: [Some (cb, cx, cy, termch)] when
    it returns 1. *)
Definition parse_sgr (buf : list ascii) : option (Z * Z * Z * ascii) :=
  let len := List.length buf in
  if (len <? 4)%nat || negb (Ascii.eqb (hd NUL buf) "<"%char)
     || (SGR_BUF <=? len)%nat then None
  else
    let tmp := cstr (firstn (len - 2) (tl buf)) in
    match split_semi tmp with
    | None => None
    | Some (p, r1) =>
        match split_semi r1 with
        | None => None
        | Some (s1, s2) =>
            match strtol10 p with
            | Some vcb => if negb (in_long vcb) then None else
                match strtol10 s1 with
                | Some vcx => if negb (in_long vcx) then None else
                    match strtol10 s2 with
                    | Some vcy => if negb (in_long vcy) then None else
                        Some (wrap32 vcb, wrap32 vcx, wrap32 vcy,
                              last buf NUL)
                    | None => None
                    end
                | None => None
                end
            | None => None
            end
        end
    end.

(** A field that [parse_sgr] accepts: [strtol] finds digits after optional
    blanks and sign, and the value is in the [long] range (no [ERANGE]). *)
Definition field_ok (f : list ascii) : bool :=
  match strtol10 f with Some v => in_long v | None => false end.

(** ** Events *)

Inductive evtype := EVT_PRESS | EVT_MOTION | EVT_RELEASE.

(** [event_t]; the timestamp [t] is the CLOCK_MONOTONIC reading in
    nanoseconds. *)
Record event := mkEvent { x : Z; y : Z; button : Z; type : evtype; t : Z }.

Definition is_press (e : event) : bool :=
  match type e with EVT_PRESS => true | _ => false end.

(** Return codes of [read_sgr_event_timeout]: 0, 1, -1 and 2. *)
Inductive rresult :=
| RTimeout
| REvent (e : event)
| RTerm
| REnter.

(** ** read_sgr_event_timeout *)

(** What the terminal file descriptor delivers, in order: a byte, a silence
    longer than the timeout of a [select] waiting at that point, or a
    terminating signal (SIGINT, SIGTERM, SIGHUP, SIGQUIT: [got_sig] is set and
    the blocking [select] or [read] fails with EINTR).  The end of the list
    is end of input: [read] returns 0. *)
Inductive src :=
| Byte (c : ascii)
| Quiet
| Sig.

(** Position inside the nested reads of the loop body: before the [select]
    of a new iteration, after ESC, after ESC [, or inside the body loop with
    [buf[0..len)] read so far. *)
Inductive dstate :=
| DTop
| DEsc
| DBracket
| DBody (buf : list ascii).

Definition is_crlf (c : ascii) : bool := Ascii.eqb c CR || Ascii.eqb c LF.
Definition is_term (c : ascii) : bool :=
  Ascii.eqb c "M"%char || Ascii.eqb c "m"%char.

(** The event built after a successful [parse_sgr]; [now] is the
    [clock_gettime] reading. *)
Definition sgr_event (now cb cx cy : Z) (termch : ascii) : event :=
  mkEvent cx cy cb
    (if Ascii.eqb termch "M"%char
     then (if cb <? 32 then EVT_PRESS else EVT_MOTION)
     else EVT_RELEASE)
    now.

(** One byte or condition at a time.  [to] is [None] for a negative
    [timeout_sec] (select blocks) and [Some us] otherwise. *)
Fixpoint scan (to : option Z) (now : Z) (st : dstate) (s : list src)
  : rresult * list src :=
  match s with
  | [] => (RTerm, [])
  | Sig :: r => (RTerm, r)
  | Quiet :: r =>
      match st with
      | DTop => match to with Some _ => (RTimeout, r) | None => scan to now DTop r end
      | _ => scan to now st r
      end
  | Byte c :: r =>
      match st with
      | DTop =>
          if is_crlf c then (REnter, r)
          else if Ascii.eqb c ESC then scan to now DEsc r
          else scan to now DTop r
      | DEsc =>
          if Ascii.eqb c "["%char then scan to now DBracket r else scan to now DTop r
      | DBracket =>
          if Ascii.eqb c "<"%char then scan to now (DBody ["<"%char]) r
          else scan to now DTop r
      | DBody buf =>
          let buf' := buf ++ [c] in
          if is_term c || (SGR_BUF <=? List.length buf' + 1)%nat then
            match parse_sgr buf' with
            | Some (cb, cx, cy, termch) => (REvent (sgr_event now cb cx cy termch), r)
            | None => scan to now DTop r
            end
          else scan to now (DBody buf') r
      end
  end.

Definition read_sgr_event_timeout (to : option Z) (now : Z) (s : list src)
  : rresult * list src :=
  scan to now DTop s.

Definition bytes (l : list ascii) : list src := map Byte l.
Definition chars (s : string) : list ascii := list_ascii_of_string s.

Definition all_digits (d : list ascii) : bool := forallb is_digit d.

(** The SGR body [Cb;Cx;Cy] from three fields. *)
Definition sgr_body (dcb dcx dcy : list ascii) : list ascii :=
  dcb ++ ";"%char :: dcx ++ ";"%char :: dcy.

(** The wire sequence [ESC [ < Cb ; Cx ; Cy term]. *)
Definition sgr_seq (dcb dcx dcy : list ascii) (term : ascii) : list ascii :=
  ESC :: "["%char :: "<"%char :: sgr_body dcb dcx dcy ++ [term].

(** ** Output *)

(** Format strings are written with [`] for a double quote and [|] for a
    newline; [qq] turns them into the real text. *)
Fixpoint qq (s : string) : string :=
  match s with
  | EmptyString => EmptyString
  | String c r =>
      String (if Ascii.eqb c "`"%char then ascii_of_nat 34
              else if Ascii.eqb c "|"%char then LF else c) (qq r)
  end.

(** What one [fprintf] call writes, split at its conversions: literal text,
    [%s], [%d], [%zu], and [%.6f] of a time in nanoseconds. *)
Inductive piece :=
| PLit (s : string)
| PStr (s : string)
| PInt (z : Z)
| PSize (n : nat)
| PFix (ns : Z).

Definition type_str (ty : evtype) : string :=
  match ty with
  | EVT_PRESS => "press"
  | EVT_RELEASE => "release"
  | EVT_MOTION => "motion"
  end.

Fixpoint mapi_from {A B : Type} (f : nat -> A -> B) (i : nat) (l : list A) : list B :=
  match l with
  | [] => []
  | a :: r => f i a :: mapi_from f (S i) r
  end.

(** [fprintf(fp, "%d,%d,%d\n", ...)] *)
Definition print_csv (e : event) : list piece :=
  [PInt (x e); PLit ","; PInt (y e); PLit ","; PInt (button e); PLit (qq "|")].

(** [print_json_line] *)
Definition print_json_line (e : event) (dt : Z) : list piece :=
  [PLit (qq "{`x`:"); PInt (x e); PLit (qq ",`y`:"); PInt (y e);
   PLit (qq ",`button`:"); PInt (button e); PLit (qq ",`type`:`");
   PStr (type_str (type e)); PLit (qq "`,`dt`:"); PFix dt; PLit (qq "}|")].

(** One element of the [events] array, compact and pretty. *)
Definition compact_event (sep : string) (e : event) (dt : Z) : list piece :=
  [PStr sep; PLit (qq "{`x`:"); PInt (x e); PLit (qq ",`y`:"); PInt (y e);
   PLit (qq ",`button`:"); PInt (button e); PLit (qq ",`type`:`");
   PStr (type_str (type e)); PLit (qq "`,`dt`:"); PFix dt; PLit "}"].

Definition pretty_event (e : event) (dt : Z) (sep : string) : list piece :=
  [PLit (qq "    {`x`:"); PInt (x e); PLit (qq ", `y`:"); PInt (y e);
   PLit (qq ", `button`:"); PInt (button e); PLit (qq ", `type`:`");
   PStr (type_str (type e)); PLit (qq "`, `dt`:"); PFix dt; PLit "}";
   PStr sep; PLit (qq "|")].

Definition compact_header (mode started_at : string) (duration : Z) (n : nat) :=
  [PLit (qq "{`mode`:`"); PStr mode; PLit (qq "`,`started_at`:`"); PStr started_at;
   PLit (qq "`,`duration`:"); PFix duration; PLit (qq ",`outputs`:"); PSize n;
   PLit (qq ",`events`:[")].

Definition pretty_header (mode started_at : string) (duration : Z) (n : nat) :=
  [PLit (qq "{|  `mode`: `"); PStr mode; PLit (qq "`,|  `started_at`: `");
   PStr started_at; PLit (qq "`,|  `duration`: "); PFix duration;
   PLit (qq ",|  `outputs`: "); PSize n; PLit (qq ",|  `events`: [|")].

(** [out_event_t]: an event with its [dt]. *)
Definition out_event : Type := (event * Z)%type.

Definition count_press (l : list event) : nat := List.length (filter is_press l).

(** [print_json_history] *)
Definition print_json_history (outs : list out_event) (pretty : bool)
  (mode started_at : string) (duration : Z) : list piece :=
  let press_count := count_press (map fst outs) in
  let n := List.length outs in
  if negb pretty then
    compact_header mode started_at duration press_count
    ++ List.concat (mapi_from (fun i o =>
         compact_event (if (i =? 0)%nat then "" else ",") (fst o) (snd o)) 0 outs)
    ++ [PLit (qq "]}|")]
  else
    pretty_header mode started_at duration press_count
    ++ List.concat (mapi_from (fun i o =>
         pretty_event (fst o) (snd o) (if (i + 1 <? n)%nat then "," else "")) 0 outs)
    ++ [PLit (qq "  ]|}|")].

(** The [dt] of [events[i]]: 0 for [i = 0], else the difference of the
    timestamps of [events[i]] and [events[i-1]]. *)
Fixpoint dts_from (prev : option event) (l : list event) : list Z :=
  match l with
  | [] => []
  | e :: r =>
      (match prev with None => 0 | Some p => t e - t p end) :: dts_from (Some e) r
  end.

(** [print_json_from_events] *)
Definition print_json_from_events (events : list event) (pretty : bool)
  (mode started_at : string) (duration : Z) : list piece :=
  let press_count := count_press events in
  let n := List.length events in
  let evd := combine events (dts_from None events) in
  if negb pretty then
    compact_header mode started_at duration press_count
    ++ List.concat (mapi_from (fun i o =>
         compact_event (if (i =? 0)%nat then "" else ",") (fst o) (snd o)) 0 evd)
    ++ [PLit (qq "]}|")]
  else
    pretty_header mode started_at duration press_count
    ++ List.concat (mapi_from (fun i o =>
         pretty_event (fst o) (snd o) (if (i + 1 <? n)%nat then "," else "")) 0 evd)
    ++ [PLit (qq "  ]|}|")].

(** Reading a field back: the pieces that directly follow a key literal
    ["key":], ["key": ], ["key":"] or ["key": "]. *)
Definition ends_with (suf s : string) : bool :=
  let n := String.length s in
  let m := String.length suf in
  (m <=? n)%nat && String.eqb (substring (n - m) m s) suf.

Definition key_lit (k : string) (p : piece) : bool :=
  match p with
  | PLit s =>
      ends_with (qq ("`" ++ k ++ "`:")) s || ends_with (qq ("`" ++ k ++ "`: ")) s
      || ends_with (qq ("`" ++ k ++ "`:`")) s || ends_with (qq ("`" ++ k ++ "`: `")) s
  | _ => false
  end.

Fixpoint values_aux (k : string) (armed : bool) (l : list piece) : list piece :=
  match l with
  | [] => []
  | p :: r => (if armed then [p] else []) ++ values_aux k (key_lit k p) r
  end.

Definition json_values (k : string) (l : list piece) : list piece :=
  values_aux k false l.

Definition is_press_str (p : piece) : bool :=
  match p with PStr s => String.eqb s "press" | _ => false end.

Fixpoint armed_after (k : string) (b : bool) (l : list piece) : bool :=
  match l with
  | [] => b
  | p :: r => armed_after k (key_lit k p) r
  end.

(** ** Click mode *)

Inductive outmode := OUT_CSV | OUT_JSON | OUT_PRETTY | OUT_JSONL.

(** The multiclick gap, 0.5 s, as the [select] timeout [{0, 500000}] in
    microseconds. *)
Definition MULTICLICK_MAX_GAP : option Z := Some 500000.
Definition MULTICLICK_RADIUS : Z := 3.

(** The upper layers read the Timed Event Source: one [rresult] per call of
    [read_sgr_event_timeout].  When the list runs out the source is closed
    and every further call returns -1.  Each loop also reports the timeout
    argument of every call it makes. *)

(** [wait_for_first_press]: the first Press, or [None] on Enter, EOF or a
    signal.  [got_sig] only becomes set together with a failing read, so the
    [while (!got_sig)] test is covered by [RTerm]. *)
Fixpoint wait_for_first_press (s : list rresult)
  : option event * list rresult * list (option Z) :=
  match s with
  | [] => (None, [], [None])
  | r :: s' =>
      match r with
      | REvent e =>
          if is_press e then (Some e, s', [None])
          else let '(o, rest, log) := wait_for_first_press s' in (o, rest, None :: log)
      | REnter | RTerm => (None, s', [None])
      | RTimeout =>
          let '(o, rest, log) := wait_for_first_press s' in (o, rest, None :: log)
      end
  end.

(** [dx*dx + dy*dy <= MULTICLICK_RADIUS * MULTICLICK_RADIUS] in [int]. *)
Definition near (first ev : event) : bool :=
  let dx := int_sub (x first) (x ev) in
  let dy := int_sub (y first) (y ev) in
  int_add (int_mul dx dx) (int_mul dy dy) <=? MULTICLICK_RADIUS * MULTICLICK_RADIUS.

(** The accumulation loop of [handle_click_mode]: [Some last] on success. *)
Fixpoint click_followups (N : Z) (first : event) (count : Z) (last : event)
  (s : list rresult) : option event * list rresult * list (option Z) :=
  if count <? N then
    match s with
    | [] => (None, [], [MULTICLICK_MAX_GAP])
    | r :: s' =>
        match r with
        | RTimeout | RTerm | REnter => (None, s', [MULTICLICK_MAX_GAP])
        | REvent ev =>
            if negb (is_press ev) then
              let '(o, rest, log) := click_followups N first count last s' in
              (o, rest, MULTICLICK_MAX_GAP :: log)
            else if near first ev then
              let '(o, rest, log) := click_followups N first (count + 1) ev s' in
              (o, rest, MULTICLICK_MAX_GAP :: log)
            else (None, s', [MULTICLICK_MAX_GAP])
        end
    end
  else if count =? N then (Some last, s, []) else (None, s, []).

(** The detection part of [handle_click_mode]: the first Press, then, for
    [N > 1], the follow-ups; [Some last] on success. *)
Definition click_detect (N : Z) (s : list rresult)
  : option event * list rresult * list (option Z) :=
  match wait_for_first_press s with
  | (None, s1, log1) => (None, s1, log1)
  | (Some first, s1, log1) =>
      let '(res, s2, log2) :=
        if 1 <? N then click_followups N first 1 first s1 else (Some first, s1, []) in
      (res, s2, log1 ++ log2)
  end.

(** What [handle_click_mode] prints for the reported event; [calloc_ok]
    says whether the one-element [calloc] of the JSON branch succeeds. *)
Definition click_report (out_mode : outmode) (started_at : string)
  (calloc_ok : bool) (last : event) : list piece :=
  match out_mode with
  | OUT_JSONL => print_json_line last 0
  | OUT_JSON | OUT_PRETTY =>
      if calloc_ok
      then print_json_history [(last, 0)]
             (match out_mode with OUT_PRETTY => true | _ => false end)
             "click" started_at 0
      else print_csv last
  | OUT_CSV => print_csv last
  end.

Record click_result := mkClick {
  rc : Z;
  click_rest : list rresult;
  click_reads : list (option Z);
  click_marks : list (Z * Z);
  click_out : list piece }.

(** [handle_click_mode] *)
Definition handle_click_mode (N : Z) (out_mode : outmode) (do_mark : bool)
  (started_at : string) (calloc_ok : bool) (s : list rresult) : click_result :=
  match click_detect N s with
  | (None, rest, log) => mkClick 1 rest log [] []
  | (Some last, rest, log) =>
      mkClick 0 rest log
        (if do_mark then [(x last, y last)] else [])
        (click_report out_mode started_at calloc_ok last)
  end.

Definition press (px py : Z) (tm : Z) : rresult := REvent (mkEvent px py 0 EVT_PRESS tm).

(** ** Main loop *)

(** The command-line settings the loop reads.  [record_ns] is
    [record_seconds] in nanoseconds. *)
Record config := mkConfig {
  infinite : bool;
  count_limit : Z;
  record_mode : bool;
  record_ns : Z;
  do_mark : bool;
  out_mode : outmode }.

Definition MAX_EVENTS : nat := 65536.

(** [est = (size_t)(record_seconds * 1000.0) + 1024], capped at MAX_EVENTS. *)
Definition max_events_of (record_ns : Z) : nat :=
  Nat.min (Z.to_nat (record_ns / 1000000) + 1024) MAX_EVENTS.

(** One iteration of the main loop as the environment sees it: the
    CLOCK_MONOTONIC reading taken in that iteration (before the read in
    record mode, after the event otherwise) and the result of the read. *)
Record step := mkStep { clk : Z; res : rresult }.

Record mstate := mkState {
  events : list event;          (* events[0..ev_count) *)
  outs : list out_event;        (* outs[0..outs_count) *)
  outs_cap : nat;
  outputs : Z;
  last_emit : Z;                (* last_emit_time, 0 when unset *)
  marks : list (Z * Z);         (* draw_mark calls, in order *)
  out : list piece }.           (* what is written to the output file *)

Definition init_state : mstate := mkState [] [] 0 0 0 [] [].

Definition set_events (st : mstate) (l : list event) : mstate :=
  mkState l (outs st) (outs_cap st) (outputs st) (last_emit st) (marks st) (out st).
Definition set_outs (st : mstate) (l : list out_event) (cap : nat) : mstate :=
  mkState (events st) l cap (outputs st) (last_emit st) (marks st) (out st).
Definition set_outputs (st : mstate) (n : Z) : mstate :=
  mkState (events st) (outs st) (outs_cap st) n (last_emit st) (marks st) (out st).
Definition set_last_emit (st : mstate) (tm : Z) : mstate :=
  mkState (events st) (outs st) (outs_cap st) (outputs st) tm (marks st) (out st).
Definition add_marks (st : mstate) (l : list (Z * Z)) : mstate :=
  mkState (events st) (outs st) (outs_cap st) (outputs st) (last_emit st) (marks st ++ l) (out st).
Definition add_out (st : mstate) (l : list piece) : mstate :=
  mkState (events st) (outs st) (outs_cap st) (outputs st) (last_emit st) (marks st) (out st ++ l).

(** Why the loop stopped: remaining time <= 0, read returned -1 (EOF, error
    or signal), Enter, realloc failure, or the press limit. *)
Inductive stop := StopTime | StopTerm | StopEnter | StopOOM | StopLimit.

Definition bump (b : bool) : Z := if b then 1 else 0.

(** Outcome of one loop body: [continue] with the new state, or [break]. *)
Inductive next := Continue (st : mstate) | Break (r : stop) (st : mstate).

(** The tail of the loop body: [outputs] counts presses, then the two
    stop tests (default: one press; [-n N]: N presses). *)
Definition limit_check (cfg : config) (st3 : mstate) (pressed : bool) : next :=
  let st4 := set_outputs st3 (outputs st3 + bump pressed) in
  if negb (infinite cfg) && (count_limit cfg =? 0) && (1 <=? outputs st4)
  then Break StopLimit st4
  else if negb (infinite cfg) && (0 <? count_limit cfg) && (count_limit cfg <=? outputs st4)
  then Break StopLimit st4
  else Continue st4.

(** The loop body for an event outside record mode: mark, dt, emission by
    output mode (with the growth of [outs] for JSON), then [limit_check].
    [cur] is the clock reading taken after the event. *)
Definition stream_event (cfg : config) (alloc : nat -> bool) (st : mstate)
  (cur : Z) (ev : event) : next :=
  let st1 := add_marks st (if do_mark cfg && is_press ev then [(x ev, y ev)] else []) in
  let dt := if last_emit st1 =? 0 then 0 else cur - last_emit st1 in
  let st2 := set_last_emit st1 cur in
  match out_mode cfg with
  | OUT_JSONL => limit_check cfg (add_out st2 (print_json_line ev dt)) (is_press ev)
  | OUT_JSON | OUT_PRETTY =>
      let n := List.length (outs st2) in
      if (outs_cap st2 <? n + 1)%nat then
        let newcap := if (outs_cap st2 =? 0)%nat then 256%nat else (outs_cap st2 * 2)%nat in
        if alloc newcap
        then limit_check cfg (set_outs st2 (outs st2 ++ [(ev, dt)]) newcap) (is_press ev)
        else Break StopOOM st2
      else limit_check cfg (set_outs st2 (outs st2 ++ [(ev, dt)]) (outs_cap st2)) (is_press ev)
  | OUT_CSV =>
      limit_check cfg (add_out st2 (if is_press ev then print_csv ev else [])) (is_press ev)
  end.

(** The loop body for an event in record mode: store it while there is
    room. *)
Definition record_event (maxev : nat) (st : mstate) (ev : event) : mstate :=
  if (List.length (events st) <? maxev)%nat then set_events st (events st ++ [ev]) else st.

(** The [for (;;)] loop of [main]; [maxev] is [max_events] and [alloc n]
    says whether [realloc] to [n] elements succeeds. *)
Fixpoint main_loop (cfg : config) (maxev : nat) (alloc : nat -> bool)
  (rec_start : Z) (st : mstate) (s : list step) : stop * mstate * list step :=
  match s with
  | [] => (StopTerm, st, [])
  | stp :: s' =>
      if record_mode cfg && (record_ns cfg - (clk stp - rec_start) <=? 0)
      then (StopTime, st, s)
      else
        match res stp with
        | RTerm => (StopTerm, st, s')
        | RTimeout => main_loop cfg maxev alloc rec_start st s'
        | REnter => (StopEnter, st, s')
        | REvent ev =>
            if record_mode cfg then
              main_loop cfg maxev alloc rec_start (record_event maxev st ev) s'
            else
              match stream_event cfg alloc st (clk stp) ev with
              | Continue st' => main_loop cfg maxev alloc rec_start st' s'
              | Break r st' => (r, st', s')
              end
        end
  end.

Definition is_pretty (m : outmode) : bool :=
  match m with OUT_PRETTY => true | _ => false end.

(** What [main] prints after the loop. *)
Definition main_finish (cfg : config) (st : mstate) (started_at : string) : list piece :=
  if record_mode cfg then
    let evs := events st in
    let duration :=
      match evs with
      | e0 :: _ :: _ => t (last evs e0) - t e0
      | _ => 0
      end in
    match out_mode cfg with
    | OUT_JSONL =>
        List.concat (map (fun p => print_json_line (fst p) (snd p))
                         (combine evs (dts_from None evs)))
    | OUT_JSON | OUT_PRETTY =>
        print_json_from_events evs (is_pretty (out_mode cfg)) "record" started_at duration
    | OUT_CSV =>
        List.concat (map (fun e => if is_press e then print_csv e else []) evs)
    end
  else
    match out_mode cfg with
    | OUT_JSON | OUT_PRETTY =>
        let duration :=
          if (1 <? List.length (outs st))%nat
          then fold_left (fun acc o => acc + snd o) (outs st) 0 else 0 in
        print_json_history (outs st) (is_pretty (out_mode cfg)) "stream" started_at duration
    | _ => []
    end.

(** Whether the part of [main] after [restore_terminal()] uses [out_fp]:
    in record mode the JSONL lines (one per stored event), the JSON dump and
    the CSV lines with their [fflush(fp)]; outside record mode the JSON
    dump. *)
Definition dump_uses_out_fp (cfg : config) (st : mstate) : bool :=
  if record_mode cfg then
    match out_mode cfg with
    | OUT_JSONL => match events st with [] => false | _ => true end
    | _ => true
    end
  else
    match out_mode cfg with
    | OUT_JSON | OUT_PRETTY => true
    | _ => false
    end.

(** [main] after option parsing for the non-click modes: the loop, then the
    final output.  A failing [calloc] of the record buffer ends the run
    before the loop.  [to_file] says whether [-o] opened [out_fp].
    [restore_terminal()] runs before the final dump and [fclose]s [out_fp]
    without resetting it, so with [to_file] a dump that uses [out_fp] writes
    to a closed [FILE*]: undefined behaviour, [None].  Otherwise [Some] of
    everything written to the output. *)
Definition main_run (cfg : config) (to_file : bool) (alloc : nat -> bool) (rec_start : Z)
  (started_at : string) (s : list step) : stop * mstate * option (list piece) :=
  let maxev := max_events_of (record_ns cfg) in
  if record_mode cfg && negb (alloc maxev) then (StopOOM, init_state, Some [])
  else
    let '(r, st, _) := main_loop cfg maxev alloc rec_start init_state s in
    if to_file && dump_uses_out_fp cfg st then (r, st, None)
    else (r, st, Some (out st ++ main_finish cfg st started_at)).

(** The Press events among a run of read results. *)
Definition presses (l : list rresult) : list event :=
  flat_map (fun r => match r with REvent e => if is_press e then [e] else [] | _ => [] end) l.

(** ** Auxiliary notions of the statements *)

Definition step_presses (p : list step) : list event := presses (map res p).

(** The press limit of single/limited mode: [-n N], or 1 by default. *)
Definition press_limit (cfg : config) : Z :=
  if count_limit cfg =? 0 then 1 else count_limit cfg.


(** Enter and end of input stop every loop of the program. *)
Definition ends_loop (r : rresult) : bool :=
  match r with REnter | RTerm => true | _ => false end.

Definition no_stop_steps (p : list step) : bool :=
  forallb (fun x => negb (ends_loop (res x))) p.

(** What the consumed steps [p] look like for each way the loop stops. *)
Definition loop_post (cfg : config) (r : stop) (st' : mstate) (p rest : list step) : Prop :=
  match r with
  | StopLimit => outputs st' = press_limit cfg /\
      exists p0 c e, p = p0 ++ [mkStep c (REvent e)] /\ is_press e = true
                     /\ no_stop_steps p0 = true
  | StopEnter => outputs st' < press_limit cfg /\
      exists p0 c, p = p0 ++ [mkStep c REnter] /\ no_stop_steps p0 = true
  | StopTerm => outputs st' < press_limit cfg /\
      ((exists p0 c, p = p0 ++ [mkStep c RTerm] /\ no_stop_steps p0 = true)
       \/ (rest = [] /\ no_stop_steps p = true))
  | StopOOM => outputs st' < press_limit cfg
      /\ (out_mode cfg = OUT_JSON \/ out_mode cfg = OUT_PRETTY)
      /\ exists p0 c e, p = p0 ++ [mkStep c (REvent e)] /\ no_stop_steps p0 = true
  | StopTime => False
  end.

(** The steps whose Press events are counted in [outputs]: all of them,
    except the event whose storage failed at a [realloc] break. *)
Definition counted (r : stop) (p : list step) : list step :=
  match r with StopOOM => removelast p | _ => p end.


(** The events received in a run of steps, in arrival order. *)
Definition received (p : list step) : list event :=
  flat_map (fun stp => match res stp with REvent e => [e] | _ => [] end) p.

(** Record-mode time test of one iteration: [remaining > 0]. *)
Definition time_left (cfg : config) (rec_start : Z) (stp : step) : bool :=
  0 <? record_ns cfg - (clk stp - rec_start).

Definition record_post (cfg : config) (rec_start : Z) (r : stop) (p rest : list step) : Prop :=
  match r with
  | StopTime => no_stop_steps p = true /\
      exists stp rest', rest = stp :: rest' /\ time_left cfg rec_start stp = false
  | StopEnter => exists p0 c, p = p0 ++ [mkStep c REnter] /\ no_stop_steps p0 = true
  | StopTerm => (exists p0 c, p = p0 ++ [mkStep c RTerm] /\ no_stop_steps p0 = true)
               \/ (rest = [] /\ no_stop_steps p = true)
  | _ => False
  end.

(** Example runs. *)

Definition ex_limit_cfg : config := mkConfig false 2 false 0 true OUT_CSV.

Definition ex_limit_steps : list step :=
  [mkStep 1 (press 3 4 1); mkStep 2 (REvent (mkEvent 3 4 0 EVT_RELEASE 2));
   mkStep 3 (REvent (mkEvent 6 7 32 EVT_MOTION 3)); mkStep 4 (press 6 7 4);
   mkStep 5 REnter].

Definition ex_record_cfg : config := mkConfig false 0 true 2000000 false OUT_JSON.

Definition ex_record_steps : list step :=
  [mkStep 10 (press 3 4 10); mkStep 20 (REvent (mkEvent 3 4 0 EVT_RELEASE 20));
   mkStep 2000010 (press 5 5 2000010)].

(** ** Times printed as [dt] *)

(** The [dt] values of a list of times: 0 for the first one, then the
    difference to the previous one. *)
Definition time_deltas (l : list Z) : list Z :=
  match l with
  | [] => []
  | _ :: r => 0 :: map (fun ab => snd ab - fst ab) (combine l r)
  end.

(** The [dt] the streaming loop computes for events emitted at the clock
    readings [cs], from [last_emit_time = prev] (0 while unset). *)
Fixpoint emit_dts (prev : Z) (cs : list Z) : list Z :=
  match cs with
  | [] => []
  | c :: r => (if prev =? 0 then 0 else c - prev) :: emit_dts c r
  end.

(** The clock readings of the iterations that received an event. *)
Definition event_clocks (p : list step) : list Z :=
  flat_map (fun stp => match res stp with REvent _ => [clk stp] | _ => [] end) p.

(** A run of the capture loop outside record mode: a Press, a timeout,
    a Release, a Motion, a second Press, then Enter. *)
Definition ex_stream_steps : list step :=
  [mkStep 100 (press 3 4 100); mkStep 150 RTimeout;
   mkStep 250 (REvent (mkEvent 3 4 0 EVT_RELEASE 250));
   mkStep 400 (REvent (mkEvent 8 9 32 EVT_MOTION 400)); mkStep 700 (press 8 9 700);
   mkStep 900 REnter].

Definition ex_stream_cfg (om : outmode) : config := mkConfig true 0 false 0 false om.

(** ** Fields of a mouse report *)

(** A byte that can occur inside one field of an SGR body without ending
    the sequence, the field or the C string. *)
Definition field_char (c : ascii) : bool :=
  negb (is_term c) && negb (Ascii.eqb c ";"%char) && negb (Ascii.eqb c NUL).

(** A byte that the decoder skips between sequences: not CR, LF or ESC. *)
Definition noise_char (c : ascii) : bool := negb (is_crlf c) && negb (Ascii.eqb c ESC).

(** ** Option processing in [main] *)

(** The values [getopt_long] hands to the option loop of [main], one per
    recognised option, with its [optarg] ([OptO None] is a NULL [optarg]);
    [OptOther] stands for ['?'] and any other value.  Splitting combined
    short options and matching long names is [getopt_long]'s work, which is
    not embedded. *)
Inductive opt :=
  | OptI | OptN (arg : list ascii) | OptC (arg : list ascii) | OptM
  | OptR (arg : list ascii) | OptJ | OptP | OptL | OptO (arg : option (list ascii))
  | OptA | OptBigO | OptBigN | OptH | OptOther.

(** The variables the option loop sets.  [strtod] is not embedded: the
    type [D] of doubles and [parse_positive_double] are parameters of the
    definitions below. *)
Record opts (D : Type) := mkOpts {
  o_infinite : bool;
  o_count_limit : Z;
  o_click_mode : bool;
  o_click_N : Z;
  o_do_mark : bool;
  o_record_mode : bool;
  o_record_seconds : D;
  o_out_mode : outmode;
  o_append : bool;
  o_overwrite : bool;
  o_outfile : option (list ascii);
  o_no_warn : bool }.

Arguments mkOpts {D}.
Arguments o_infinite {D}.
Arguments o_count_limit {D}.
Arguments o_click_mode {D}.
Arguments o_click_N {D}.
Arguments o_do_mark {D}.
Arguments o_record_mode {D}.
Arguments o_record_seconds {D}.
Arguments o_out_mode {D}.
Arguments o_append {D}.
Arguments o_overwrite {D}.
Arguments o_outfile {D}.
Arguments o_no_warn {D}.

(** The initial values; [d0] is [0.0]. *)
Definition init_opts {D} (d0 : D) : opts D :=
  mkOpts false 0 false 0 false false d0 OUT_CSV false false None false.

Definition set_infinite {D} (o : opts D) : opts D :=
  mkOpts true (o_count_limit o) (o_click_mode o) (o_click_N o) (o_do_mark o)
    (o_record_mode o) (o_record_seconds o) (o_out_mode o) (o_append o)
    (o_overwrite o) (o_outfile o) (o_no_warn o).
Definition set_count {D} (o : opts D) (n : Z) : opts D :=
  mkOpts (o_infinite o) n (o_click_mode o) (o_click_N o) (o_do_mark o)
    (o_record_mode o) (o_record_seconds o) (o_out_mode o) (o_append o)
    (o_overwrite o) (o_outfile o) (o_no_warn o).
Definition set_click {D} (o : opts D) (n : Z) : opts D :=
  mkOpts (o_infinite o) (o_count_limit o) true n (o_do_mark o)
    (o_record_mode o) (o_record_seconds o) (o_out_mode o) (o_append o)
    (o_overwrite o) (o_outfile o) (o_no_warn o).
Definition set_mark {D} (o : opts D) : opts D :=
  mkOpts (o_infinite o) (o_count_limit o) (o_click_mode o) (o_click_N o) true
    (o_record_mode o) (o_record_seconds o) (o_out_mode o) (o_append o)
    (o_overwrite o) (o_outfile o) (o_no_warn o).
Definition set_record {D} (o : opts D) (v : D) : opts D :=
  mkOpts (o_infinite o) (o_count_limit o) (o_click_mode o) (o_click_N o) (o_do_mark o)
    true v (o_out_mode o) (o_append o)
    (o_overwrite o) (o_outfile o) (o_no_warn o).
Definition set_out_mode {D} (o : opts D) (m : outmode) : opts D :=
  mkOpts (o_infinite o) (o_count_limit o) (o_click_mode o) (o_click_N o) (o_do_mark o)
    (o_record_mode o) (o_record_seconds o) m (o_append o)
    (o_overwrite o) (o_outfile o) (o_no_warn o).
Definition set_outfile {D} (o : opts D) (p : list ascii) : opts D :=
  mkOpts (o_infinite o) (o_count_limit o) (o_click_mode o) (o_click_N o) (o_do_mark o)
    (o_record_mode o) (o_record_seconds o) (o_out_mode o) (o_append o)
    (o_overwrite o) (Some p) (o_no_warn o).
Definition set_append {D} (o : opts D) : opts D :=
  mkOpts (o_infinite o) (o_count_limit o) (o_click_mode o) (o_click_N o) (o_do_mark o)
    (o_record_mode o) (o_record_seconds o) (o_out_mode o) true
    (o_overwrite o) (o_outfile o) (o_no_warn o).
Definition set_overwrite {D} (o : opts D) : opts D :=
  mkOpts (o_infinite o) (o_count_limit o) (o_click_mode o) (o_click_N o) (o_do_mark o)
    (o_record_mode o) (o_record_seconds o) (o_out_mode o) (o_append o)
    true (o_outfile o) (o_no_warn o).
Definition set_no_warn {D} (o : opts D) : opts D :=
  mkOpts (o_infinite o) (o_count_limit o) (o_click_mode o) (o_click_N o) (o_do_mark o)
    (o_record_mode o) (o_record_seconds o) (o_out_mode o) (o_append o)
    (o_overwrite o) (o_outfile o) true.

(** How the option part of [main] ends: [return 2] after [print_error]
    with its message, [return 0] after [print_help], or on to the run. *)
Inductive optres (D : Type) :=
  | OExit (code : Z) (msg : string)
  | OHelp
  | ORun (o : opts D).

Arguments OExit {D}.
Arguments OHelp {D}.
Arguments ORun {D}.

(** One pass of the [while (getopt_long ...)] body.  [(int)v] is the
    truncation [wrap32]. *)
Definition opt_step {D} (parse_positive_double : list ascii -> option D)
  (o : opts D) (c : opt) : optres D :=
  match c with
  | OptI => ORun (set_infinite o)
  | OptN a =>
      match parse_positive_int a with
      | None => OExit 2 "--count/-n requires positive integer"
      | Some v => ORun (set_count o (wrap32 v))
      end
  | OptC a =>
      match parse_positive_int a with
      | None => OExit 2 "--click/-c requires positive integer"
      | Some v => ORun (set_click o (wrap32 v))
      end
  | OptM => ORun (set_mark o)
  | OptR a =>
      match parse_positive_double a with
      | None => OExit 2 "--record/-r requires positive numeric seconds"
      | Some v => ORun (set_record o v)
      end
  | OptJ => ORun (set_out_mode o OUT_JSON)
  | OptP => ORun (set_out_mode o OUT_PRETTY)
  | OptL => ORun (set_out_mode o OUT_JSONL)
  | OptO a =>
      match a with
      | None => OExit 2 "--outfile/-o requires a file path"
      | Some p => ORun (set_outfile o p)
      end
  | OptA => ORun (set_append o)
  | OptBigO => ORun (set_overwrite o)
  | OptBigN => ORun (set_no_warn o)
  | OptH => OHelp
  | OptOther => OExit 2 "unknown parameter"
  end.

(** The three exclusivity tests after the loop. *)
Definition exclusivity {D} (o : opts D) : optres D :=
  if o_infinite o && negb (o_count_limit o =? 0)
  then OExit 2 "--infinite and --count are exclusive"
  else if o_click_mode o && (o_infinite o || negb (o_count_limit o =? 0) || o_record_mode o)
  then OExit 2 "--click is exclusive with --infinite/--count/--record"
  else if o_record_mode o && o_click_mode o
  then OExit 2 "--record and --click are exclusive"
  else ORun o.

Fixpoint getopt_loop {D} (parse_positive_double : list ascii -> option D)
  (o : opts D) (l : list opt) : optres D :=
  match l with
  | [] => exclusivity o
  | c :: l' =>
      match opt_step parse_positive_double o c with
      | ORun o' => getopt_loop parse_positive_double o' l'
      | r => r
      end
  end.

(** The option part of [main] (lines up to the exclusivity tests). *)
Definition main_options {D} (d0 : D) (parse_positive_double : list ascii -> option D)
  (l : list opt) : optres D :=
  getopt_loop parse_positive_double (init_opts d0) l.

(** Options that set [count_limit], and [click_N]. *)
Definition is_count_opt (c : opt) : bool := match c with OptN _ => true | _ => false end.
Definition is_click_opt (c : opt) : bool := match c with OptC _ => true | _ => false end.

(** The output mode named by the last of [-j], [-p], [-l] in [l], [m] when
    there is none. *)
Fixpoint out_mode_after (m : outmode) (l : list opt) : outmode :=
  match l with
  | [] => m
  | OptJ :: r => out_mode_after OUT_JSON r
  | OptP :: r => out_mode_after OUT_PRETTY r
  | OptL :: r => out_mode_after OUT_JSONL r
  | _ :: r => out_mode_after m r
  end.

(** ** Output file handling in [main] *)

Inductive fopen_mode := FOpenAppend | FOpenWrite.

(** [OutfileOk warned opened]: whether the append warning is printed, and
    the [fopen] made, if any; [OutfileErr code] is a [return code]. *)
Inductive outfile_res :=
  | OutfileErr (code : Z)
  | OutfileOk (warned : bool) (opened : option (list ascii * fopen_mode)).

(** [file_exists] is [stat(...) == 0], [writable] is [access(W_OK) == 0],
    [open_ok] whether [fopen] returns non-NULL. *)
Definition outfile_setup (no_warn append_flag overwrite_flag : bool)
  (outfile_path : option (list ascii)) (file_exists writable open_ok : bool)
  : outfile_res :=
  let '(warned, append1) :=
    match outfile_path with
    | None => if append_flag then (negb no_warn, false) else (false, append_flag)
    | Some _ => (false, append_flag)
    end in
  match outfile_path with
  | None => OutfileOk warned None
  | Some p =>
      if file_exists && negb append1 && negb overwrite_flag then OutfileErr 4
      else if file_exists && negb writable then OutfileErr 3
      else if open_ok
      then OutfileOk warned (Some (p, if append1 then FOpenAppend else FOpenWrite))
      else OutfileErr 3
  end.

(** ** Terminal control sequences *)

(** [ESC [ ? mode c]: a DEC private mode set ([h]) or reset ([l]). *)
Definition dec_private (mode : string) (c : ascii) : list ascii :=
  ESC :: "["%char :: "?"%char :: chars mode ++ [c].

(** [term_write(buf, len)]: the first [len] bytes of the literal. *)
Definition term_write (buf : list ascii) (len : nat) : list ascii := firstn len buf.

Definition enable_mouse_reporting (motion : bool) : list ascii :=
  if motion
  then term_write (dec_private "1000" "h" ++ dec_private "1002" "h" ++ dec_private "1006" "h") 24
  else term_write (dec_private "1000" "h" ++ dec_private "1006" "h") 16.

(** [term_write(seq, sizeof(seq)-1)] *)
Definition minimal_signal_restore : list ascii :=
  let seq := dec_private "25" "h" ++ dec_private "1049" "l" ++ dec_private "1000" "l"
             ++ dec_private "1002" "l" ++ dec_private "1006" "l" in
  term_write seq (List.length seq).

(** [restore_terminal]: the new [cleanup_done] and the bytes written to
    the terminal. *)
Definition restore_terminal (cleanup_done : bool) : bool * list ascii :=
  if cleanup_done then (true, [])
  else (true, term_write (dec_private "1000" "l" ++ dec_private "1002" "l"
                          ++ dec_private "1006" "l") 24
              ++ term_write (dec_private "1049" "l") 8).

(** The DEC private mode changes in a byte string, as a terminal reads
    them: the mode number and [true] for set, [false] for reset. *)
Inductive pm_state := PIdle | PEsc | PBracket | PParam (d : list ascii).

Fixpoint private_modes_from (st : pm_state) (l : list ascii) : list (list ascii * bool) :=
  match l with
  | [] => []
  | c :: r =>
      match st with
      | PIdle => private_modes_from (if Ascii.eqb c ESC then PEsc else PIdle) r
      | PEsc => private_modes_from (if Ascii.eqb c "["%char then PBracket else PIdle) r
      | PBracket => private_modes_from (if Ascii.eqb c "?"%char then PParam [] else PIdle) r
      | PParam d =>
          if is_digit c then private_modes_from (PParam (d ++ [c])) r
          else if Ascii.eqb c "h"%char then (d, true) :: private_modes_from PIdle r
          else if Ascii.eqb c "l"%char then (d, false) :: private_modes_from PIdle r
          else private_modes_from PIdle r
      end
  end.

Definition private_modes (l : list ascii) : list (list ascii * bool) :=
  private_modes_from PIdle l.

(** ** The dots of [draw_mark] and [playback_events_color] *)

(** The decimal digits of [n >= 0], most significant first, in front of
    [acc]. *)
Fixpoint dec_digits (fuel : nat) (n : Z) (acc : list ascii) : list ascii :=
  match fuel with
  | O => acc
  | S f =>
      let acc' := ascii_of_nat (48 + Z.to_nat (n mod 10)) :: acc in
      if n <? 10 then acc' else dec_digits f (n / 10) acc'
  end.

(** [%d] of an [int]. *)
Definition fmt_d (z : Z) : list ascii :=
  if z <? 0 then "-"%char :: dec_digits 10 (- z) [] else dec_digits 10 z [].

(** U+25CF in UTF-8. *)
Definition BULLET : list ascii := [ascii_of_nat 226; ascii_of_nat 151; ascii_of_nat 143].

(** [snprintf(seq, size, ...)] with the text [txt], then
    [if (n>0) term_write(seq, (size_t)n)]: the bytes written.  When the text
    does not fit ([n >= size]) the write covers bytes past the formatted
    text, which is not modelled: [None]. *)
Definition snprintf_write (size : nat) (txt : list ascii) : option (list ascii) :=
  let n := List.length txt in
  if (n <? size)%nat then Some (if (0 <? n)%nat then term_write txt n else [])
  else None.

Definition mark_text (x y : Z) : list ascii :=
  [ESC; "7"%char] ++ [ESC; "["%char] ++ fmt_d y ++ [";"%char] ++ fmt_d x ++ ["H"%char]
  ++ (ESC :: chars "[34m") ++ BULLET ++ (ESC :: chars "[0m") ++ [ESC; "8"%char].

(** The bytes [draw_mark(x, y)] writes. *)
Definition draw_mark (x y : Z) : option (list ascii) := snprintf_write 128 (mark_text x y).

(** The bytes one iteration of the drawing loop of [playback_events_color]
    writes for event [e] with colour [(R, G, B)], after clamping row and
    column to at least 1. *)
Definition playback_dot (e : event) (R G B : Z) : option (list ascii) :=
  let row := if y e <? 1 then 1 else y e in
  let col := if x e <? 1 then 1 else x e in
  snprintf_write 256
    ((ESC :: "["%char :: fmt_d row) ++ [";"%char] ++ fmt_d col ++ ["H"%char]
     ++ (ESC :: chars "[38;2;") ++ fmt_d R ++ [";"%char] ++ fmt_d G ++ [";"%char]
     ++ fmt_d B ++ ["m"%char] ++ BULLET ++ (ESC :: chars "[0m")).

(** * Properties *)

(** ** Examples *)

Example ex_decode_press :
  read_sgr_event_timeout None 7 (bytes (ESC :: chars "[<0;12;5M"))
  = (REvent (mkEvent 12 5 0 EVT_PRESS 7), []).
Proof. reflexivity. Qed.

Example ex_decode_release :
  read_sgr_event_timeout None 7 (bytes (ESC :: chars "[<35;1;2m"))
  = (REvent (mkEvent 1 2 35 EVT_RELEASE 7), []).
Proof. reflexivity. Qed.

Example ex_click_three :
  click_out (handle_click_mode 3 OUT_CSV false "" true
               [press 10 10 0; press 11 10 1; press 10 11 2])
  = print_csv (mkEvent 10 11 0 EVT_PRESS 2).
Proof. reflexivity. Qed.

Example ex_click_far :
  rc (handle_click_mode 3 OUT_CSV false "" true [press 10 10 0; press 10 14 1]) = 1.
Proof. reflexivity. Qed.

(** ** Decoder lemmas *)

Lemma digit_not_special (c : ascii) :
  is_digit c = true ->
  is_space c = false /\ Ascii.eqb c "+"%char = false /\ Ascii.eqb c "-"%char = false
  /\ Ascii.eqb c ";"%char = false /\ Ascii.eqb c NUL = false /\ is_term c = false.
Proof.
  intros H.
  unfold is_digit in H. unfold is_space, is_term.
  apply andb_prop in H as [H1 H2].
  apply Nat.leb_le in H1. apply Nat.leb_le in H2.
  repeat split;
  repeat match goal with
  | |- Ascii.eqb c ?d = false =>
      destruct (Ascii.eqb_spec c d) as [->|]; [vm_compute in H1, H2; lia | reflexivity]
  end.
  - destruct (Nat.eqb_spec (nat_of_ascii c) 32); [lia|].
    destruct (Nat.leb_spec 9 (nat_of_ascii c)); destruct (Nat.leb_spec (nat_of_ascii c) 13);
      simpl; auto; lia.
  - destruct (Ascii.eqb_spec c "M"%char) as [->|]; [vm_compute in H1, H2; lia|].
    destruct (Ascii.eqb_spec c "m"%char) as [->|]; [vm_compute in H1, H2; lia|].
    reflexivity.
Qed.

Lemma digits_value_app (d : list ascii) (acc : Z) :
  fold_left (fun a c => a * 10 + digit_val c) d acc
  = acc * 10 ^ Z.of_nat (List.length d) + digits_value d.
Proof.
  revert acc.
  induction d as [|c d IH]; intros acc.
  - simpl. unfold digits_value. simpl. lia.
  - cbn [fold_left List.length].
    unfold digits_value at 1. cbn [fold_left].
    rewrite (IH (acc * 10 + digit_val c)), (IH (0 * 10 + digit_val c)).
    rewrite Nat2Z.inj_succ, Z.pow_succ_r by lia. lia.
Qed.

Lemma digits_value_nonneg (d : list ascii) :
  all_digits d = true -> 0 <= digits_value d.
Proof.
  induction d as [|c d IH]; intros H; [reflexivity|].
  simpl in H. apply andb_prop in H as [Hc Hd].
  change (digits_value (c :: d)) with
    (fold_left (fun a c => a * 10 + digit_val c) d (0 * 10 + digit_val c)).
  rewrite digits_value_app.
  assert (0 <= digit_val c).
  { unfold is_digit in Hc. apply andb_prop in Hc as [H1 _].
    apply Nat.leb_le in H1. unfold digit_val. lia. }
  specialize (IH Hd).
  assert (0 < 10 ^ Z.of_nat (List.length d)) by (apply Z.pow_pos_nonneg; lia).
  nia.
Qed.

Lemma take_digits_all (d r : list ascii) :
  all_digits d = true -> take_digits (d ++ r) = d ++ take_digits r.
Proof.
  induction d as [|c d IH]; intros H; [reflexivity|].
  simpl in H. apply andb_prop in H as [Hc Hd]. simpl. rewrite Hc, IH; auto.
Qed.

Lemma strtol10_digits (d : list ascii) :
  all_digits d = true -> d <> [] -> strtol10 d = Some (digits_value d).
Proof.
  intros H Hne. destruct d as [|c r]; [congruence|].
  pose proof H as H'. simpl in H'. apply andb_prop in H' as [Hc _].
  destruct (digit_not_special c Hc) as (Hs & Hp & Hm & _).
  assert (Ht : take_digits (c :: r) = c :: r).
  { rewrite <- (app_nil_r (c :: r)) at 1. rewrite take_digits_all by auto.
    apply app_nil_r. }
  unfold strtol10. cbn [skip_spaces]. rewrite Hs, Hp, Hm, Ht.
  f_equal. apply Z.mul_1_l.
Qed.

Lemma split_semi_digits (d r : list ascii) :
  all_digits d = true -> split_semi (d ++ ";"%char :: r) = Some (d, r).
Proof.
  induction d as [|c d IH]; intros H; [reflexivity|].
  simpl in H. apply andb_prop in H as [Hc Hd].
  destruct (digit_not_special c Hc) as (_ & _ & _ & Hsc & _).
  simpl. rewrite Hsc, IH; auto.
Qed.

Lemma cstr_digits (d r : list ascii) :
  all_digits d = true -> cstr (d ++ r) = d ++ cstr r.
Proof.
  induction d as [|c d IH]; intros H; [reflexivity|].
  simpl in H. apply andb_prop in H as [Hc Hd].
  destruct (digit_not_special c Hc) as (_ & _ & _ & _ & Hn & _).
  simpl. rewrite Hn, IH; auto.
Qed.

Lemma scan_body_run (to : option Z) (now : Z) (l buf : list ascii) (s : list src) :
  forallb (fun c => negb (is_term c)) l = true ->
  (List.length buf + List.length l + 1 < SGR_BUF)%nat ->
  scan to now (DBody buf) (bytes l ++ s) = scan to now (DBody (buf ++ l)) s.
Proof.
  revert buf. induction l as [|c l IH]; intros buf Hl Hlen.
  - rewrite app_nil_r. reflexivity.
  - simpl in Hl. apply andb_prop in Hl as [Hc Hl].
    apply negb_true_iff in Hc. simpl in Hlen.
    assert (Hb : (SGR_BUF <=? List.length (buf ++ [c]) + 1)%nat = false)
      by (apply Nat.leb_gt; rewrite length_app; simpl; lia).
    cbn [bytes map app scan]. rewrite Hc, Hb. cbn [orb].
    rewrite IH by (auto; rewrite length_app; simpl; lia).
    rewrite <- app_assoc. reflexivity.
Qed.

Lemma all_digits_not_term (d : list ascii) :
  all_digits d = true -> forallb (fun c => negb (is_term c)) d = true.
Proof.
  induction d as [|c d IH]; intros H; [reflexivity|].
  simpl in H. apply andb_prop in H as [Hc Hd].
  destruct (digit_not_special c Hc) as (_ & _ & _ & _ & _ & Ht).
  simpl. rewrite Ht, IH; auto.
Qed.

Lemma wrap32_small (v : Z) : INT_MIN <= v <= INT_MAX -> wrap32 v = v.
Proof.
  unfold wrap32, INT_MIN, INT_MAX. intros H.
  rewrite Z.mod_small by lia. lia.
Qed.

Lemma wrap32_range (v : Z) : INT_MIN <= wrap32 v <= INT_MAX.
Proof.
  unfold wrap32, INT_MIN, INT_MAX.
  pose proof (Z.mod_pos_bound (v + 2 ^ 31) (2 ^ 32) ltac:(lia)). lia.
Qed.

(** Decoding a sequence [ESC [ < body term] whose body fits the buffer: the
    result is that of [parse_sgr] on [< body term]. *)
Lemma decode_seq (to : option Z) (now : Z) (body : list ascii) (term : ascii)
  (rest : list src) :
  forallb (fun c => negb (is_term c)) body = true ->
  is_term term = true ->
  (List.length body <= 125)%nat ->
  read_sgr_event_timeout to now
    (bytes (ESC :: "["%char :: "<"%char :: body ++ [term]) ++ rest)
  = match parse_sgr ("<"%char :: body ++ [term]) with
    | Some (cb, cx, cy, termch) => (REvent (sgr_event now cb cx cy termch), rest)
    | None => read_sgr_event_timeout to now rest
    end.
Proof.
  intros Hb Ht Hlen.
  unfold read_sgr_event_timeout, bytes.
  cbn [map]. rewrite map_app. cbn [map app].
  rewrite <- app_assoc. cbn [app].
  cbn [scan].
  change (is_crlf ESC) with false. change (Ascii.eqb ESC ESC) with true.
  change (Ascii.eqb "[" "[") with true. change (Ascii.eqb "<" "<") with true.
  cbn [negb orb].
  change (map Byte body) with (bytes body).
  rewrite (scan_body_run to now body ["<"%char]) by (auto; simpl; unfold SGR_BUF; lia).
  cbn [scan app]. rewrite Ht. reflexivity.
Qed.

(** The decoder reads [ESC [ < body c] up to [c] when [c] is a terminator,
    or when [c] is the byte that fills the 128-byte buffer. *)
Lemma decode_seq_any (to : option Z) (now : Z) (body : list ascii) (c : ascii)
  (rest : list src) :
  forallb (fun c => negb (is_term c)) body = true ->
  (is_term c = true \/ List.length body = 125%nat) ->
  (List.length body <= 125)%nat ->
  read_sgr_event_timeout to now
    (bytes (ESC :: "["%char :: "<"%char :: body ++ [c]) ++ rest)
  = match parse_sgr ("<"%char :: body ++ [c]) with
    | Some (cb, cx, cy, termch) => (REvent (sgr_event now cb cx cy termch), rest)
    | None => read_sgr_event_timeout to now rest
    end.
Proof.
  intros Hb Hc Hlen.
  unfold read_sgr_event_timeout, bytes.
  cbn [map]. rewrite map_app. cbn [map app].
  rewrite <- app_assoc. cbn [app].
  cbn [scan].
  change (is_crlf ESC) with false. change (Ascii.eqb ESC ESC) with true.
  change (Ascii.eqb "[" "[") with true. change (Ascii.eqb "<" "<") with true.
  cbn [negb orb].
  change (map Byte body) with (bytes body).
  rewrite (scan_body_run to now body ["<"%char]) by (auto; simpl; unfold SGR_BUF; lia).
  cbn [scan app].
  replace (is_term c || (SGR_BUF <=? List.length ("<"%char :: body ++ [c]) + 1)%nat) with true.
  - reflexivity.
  - destruct Hc as [-> | Hc]; [reflexivity|].
    symmetry. apply orb_true_iff. right. apply Nat.leb_le.
    cbn. rewrite length_app. cbn. unfold SGR_BUF. lia.
Qed.


Lemma last_snoc (l : list ascii) (a d : ascii) : last (l ++ [a]) d = a.
Proof.
  induction l as [|b l IH]; [reflexivity|].
  simpl. destruct (l ++ [a]) eqn:E; [destruct l; discriminate|]. exact IH.
Qed.

Lemma parse_sgr_valid (dcb dcx dcy : list ascii) (term : ascii) :
  all_digits dcb = true -> dcb <> [] ->
  all_digits dcx = true -> dcx <> [] ->
  all_digits dcy = true -> dcy <> [] ->
  (List.length (sgr_body dcb dcx dcy) <= 125)%nat ->
  parse_sgr ("<"%char :: sgr_body dcb dcx dcy ++ [term])
  = if in_long (digits_value dcb) && in_long (digits_value dcx)
       && in_long (digits_value dcy)
    then Some (wrap32 (digits_value dcb), wrap32 (digits_value dcx),
               wrap32 (digits_value dcy), term)
    else None.
Proof.
  intros Hb Hb' Hx Hx' Hy Hy' Hlen.
  unfold parse_sgr.
  set (body := sgr_body dcb dcx dcy) in *.
  assert (Hl4 : (4 <= List.length ("<"%char :: body ++ [term]))%nat).
  { unfold body, sgr_body. simpl. rewrite !length_app. simpl.
    destruct dcb, dcx; simpl; try congruence; lia. }
  replace ((List.length ("<"%char :: body ++ [term]) <? 4)%nat) with false
    by (symmetry; apply Nat.ltb_ge; lia).
  replace ((SGR_BUF <=? List.length ("<"%char :: body ++ [term]))%nat) with false
    by (symmetry; apply Nat.leb_gt; simpl; rewrite length_app; simpl; unfold SGR_BUF; lia).
  cbn [hd tl orb negb].
  change (Ascii.eqb "<" "<") with true. cbn [negb orb].
  replace (List.length ("<"%char :: body ++ [term]) - 2)%nat with (List.length body)
    by (simpl; rewrite length_app; simpl; lia).
  rewrite firstn_app, firstn_all, Nat.sub_diag, firstn_O, app_nil_r.
  assert (Hc : cstr body = body).
  { unfold body, sgr_body. rewrite cstr_digits by auto. cbn [cstr].
    change (Ascii.eqb ";" NUL) with false. cbn.
    rewrite cstr_digits by auto. cbn [cstr].
    change (Ascii.eqb ";" NUL) with false. cbn.
    rewrite <- (app_nil_r dcy) at 1. rewrite cstr_digits by auto.
    rewrite !app_nil_r. reflexivity. }
  assert (Hlast : last ("<"%char :: body ++ [term]) NUL = term)
    by (rewrite app_comm_cons; apply last_snoc).
  rewrite Hc, Hlast. unfold body, sgr_body.
  rewrite split_semi_digits by auto. rewrite split_semi_digits by auto.
  rewrite !strtol10_digits by auto.
  destruct (in_long (digits_value dcb)), (in_long (digits_value dcx)),
    (in_long (digits_value dcy)); reflexivity.
Qed.

Lemma field_bounds (d : list ascii) :
  all_digits d = true -> digits_value d <= INT_MAX ->
  in_long (digits_value d) = true /\ wrap32 (digits_value d) = digits_value d.
Proof.
  intros Hd Hm. pose proof (digits_value_nonneg d Hd).
  split.
  - unfold in_long, LONG_MIN, LONG_MAX. unfold INT_MAX in Hm.
    apply andb_true_iff; split; apply Z.leb_le; lia.
  - apply wrap32_small. unfold INT_MIN. lia.
Qed.

(** C1: a valid SGR sequence [ESC [ < Cb ; Cx ; Cy M|m] (three non-empty
    decimal fields whose values fit an [int], the whole sequence within the
    128-byte buffer) decodes to the event with [x = Cx], [y = Cy],
    [button = Cb], of kind Press iff the terminator is [M] and [Cb < 32],
    Motion iff it is [M] and [Cb >= 32], Release iff it is [m]; the bytes
    after the sequence are left unread. *)
Theorem decode_valid_sgr (to : option Z) (now : Z)
  (dcb dcx dcy : list ascii) (term : ascii) (rest : list src) :
  all_digits dcb = true -> dcb <> [] -> digits_value dcb <= INT_MAX ->
  all_digits dcx = true -> dcx <> [] -> digits_value dcx <= INT_MAX ->
  all_digits dcy = true -> dcy <> [] -> digits_value dcy <= INT_MAX ->
  (term = "M"%char \/ term = "m"%char) ->
  (List.length (sgr_body dcb dcx dcy) <= 125)%nat ->
  exists e,
    read_sgr_event_timeout to now (bytes (sgr_seq dcb dcx dcy term) ++ rest)
      = (REvent e, rest)
    /\ x e = digits_value dcx /\ y e = digits_value dcy
    /\ button e = digits_value dcb
    /\ (type e = EVT_PRESS <-> term = "M"%char /\ digits_value dcb < 32)
    /\ (type e = EVT_MOTION <-> term = "M"%char /\ digits_value dcb >= 32)
    /\ (type e = EVT_RELEASE <-> term = "m"%char).
Proof.
  intros Hb Hb' Hbm Hx Hx' Hxm Hy Hy' Hym Ht Hlen.
  destruct (field_bounds dcb Hb Hbm) as [Lb Wb].
  destruct (field_bounds dcx Hx Hxm) as [Lx Wx].
  destruct (field_bounds dcy Hy Hym) as [Ly Wy].
  assert (Hterm : is_term term = true)
    by (destruct Ht as [-> | ->]; reflexivity).
  assert (Hnb : forallb (fun c => negb (is_term c)) (sgr_body dcb dcx dcy) = true).
  { unfold sgr_body.
    pose proof (all_digits_not_term dcb Hb). pose proof (all_digits_not_term dcx Hx).
    pose proof (all_digits_not_term dcy Hy).
    rewrite !forallb_app. simpl. rewrite !forallb_app. simpl.
    repeat match goal with H : ?a = true |- context [?a] => rewrite H end.
    reflexivity. }
  unfold sgr_seq. rewrite decode_seq by auto.
  rewrite parse_sgr_valid by auto. rewrite Lb, Lx, Ly, Wb, Wx, Wy. cbn [andb].
  eexists. split; [reflexivity|].
  unfold sgr_event. cbn [x y button type].
  split; [reflexivity|]. split; [reflexivity|]. split; [reflexivity|].
  destruct Ht as [-> | ->].
  - change (Ascii.eqb "M" "M") with true. cbv iota.
    destruct (Z.ltb_spec (digits_value dcb) 32);
      intuition (try discriminate; try lia).
  - change (Ascii.eqb "m" "M") with false. cbv iota.
    intuition discriminate.
Qed.

(** ** Output lemmas *)

Lemma values_aux_app (k : string) (b : bool) (l1 l2 : list piece) :
  values_aux k b (l1 ++ l2)
  = values_aux k b l1 ++ values_aux k (armed_after k b l1) l2.
Proof.
  revert b. induction l1 as [|p l1 IH]; intros b; [reflexivity|].
  simpl. rewrite IH, app_assoc. reflexivity.
Qed.

Lemma values_concat (k : string) (L : list (list piece)) :
  Forall (fun c => armed_after k false c = false) L ->
  values_aux k false (List.concat L) = List.concat (map (values_aux k false) L)
  /\ armed_after k false (List.concat L) = false.
Proof.
  induction L as [|c L IH]; intros H; [split; reflexivity|].
  inversion H as [|? ? Hc HL]; subst.
  destruct (IH HL) as [IH1 IH2].
  simpl. rewrite values_aux_app, Hc, IH1. split; [reflexivity|].
  clear - Hc IH2. revert Hc. generalize false at 1 3. 
  induction c as [|p c IHc]; intros b Hb; simpl in *; [subst; exact IH2|].
  apply IHc. exact Hb.
Qed.

Lemma armed_after_app (k : string) (b : bool) (l1 l2 : list piece) :
  armed_after k b (l1 ++ l2) = armed_after k (armed_after k b l1) l2.
Proof.
  revert b. induction l1 as [|p l1 IH]; intros b; [reflexivity|]. apply IH.
Qed.

Lemma map_mapi_from {A B C : Type} (g : B -> C) (f : nat -> A -> B) (i : nat) (l : list A) :
  map g (mapi_from f i l) = mapi_from (fun j a => g (f j a)) i l.
Proof.
  revert i. induction l as [|a l IH]; intros i; [reflexivity|]. simpl. f_equal. apply IH.
Qed.

Lemma Forall_mapi_from {A B : Type} (P : B -> Prop) (f : nat -> A -> B) (i : nat) (l : list A) :
  (forall j a, P (f j a)) -> Forall P (mapi_from f i l).
Proof.
  revert i. induction l as [|a l IH]; intros i H; constructor; auto.
Qed.

Lemma mapi_from_const {A B : Type} (g : A -> B) (f : nat -> A -> B) (i : nat) (l : list A) :
  (forall j a, f j a = g a) -> mapi_from f i l = map g l.
Proof.
  revert i. induction l as [|a l IH]; intros i H; [reflexivity|].
  simpl. rewrite H. f_equal. apply IH. exact H.
Qed.

Lemma compact_event_keys (sep : string) (e : event) (dt : Z) :
  armed_after "type" false (compact_event sep e dt) = false
  /\ armed_after "outputs" false (compact_event sep e dt) = false
  /\ armed_after "duration" false (compact_event sep e dt) = false
  /\ values_aux "type" false (compact_event sep e dt) = [PStr (type_str (type e))]
  /\ values_aux "outputs" false (compact_event sep e dt) = []
  /\ values_aux "duration" false (compact_event sep e dt) = [].
Proof. repeat split; reflexivity. Qed.

Lemma pretty_event_keys (sep : string) (e : event) (dt : Z) :
  armed_after "type" false (pretty_event e dt sep) = false
  /\ armed_after "outputs" false (pretty_event e dt sep) = false
  /\ armed_after "duration" false (pretty_event e dt sep) = false
  /\ values_aux "type" false (pretty_event e dt sep) = [PStr (type_str (type e))]
  /\ values_aux "outputs" false (pretty_event e dt sep) = []
  /\ values_aux "duration" false (pretty_event e dt sep) = [].
Proof. repeat split; reflexivity. Qed.

Lemma events_part {A : Type} (k : string) (f : nat -> A -> list piece) (g : A -> list piece)
  (i : nat) (l : list A) :
  (forall j a, armed_after k false (f j a) = false) ->
  (forall j a, values_aux k false (f j a) = g a) ->
  values_aux k false (List.concat (mapi_from f i l)) = List.concat (map g l)
  /\ armed_after k false (List.concat (mapi_from f i l)) = false.
Proof.
  intros Ha Hv.
  destruct (values_concat k (mapi_from f i l)) as [H1 H2].
  { apply Forall_mapi_from. exact Ha. }
  split; [|exact H2].
  rewrite H1, map_mapi_from. f_equal. apply mapi_from_const. exact Hv.
Qed.

(** The fields [outputs], [type] and [duration] of one JSON dump: the
    printed header, then the array elements, then the closing text. *)
Lemma dump_fields (k : string) (hdr tl : list piece) (body : list piece) :
  armed_after k false hdr = false ->
  armed_after k false body = false ->
  values_aux k false (hdr ++ body ++ tl)
  = values_aux k false hdr ++ values_aux k false body ++ values_aux k false tl.
Proof.
  intros H1 H2. rewrite values_aux_app, H1, values_aux_app, H2. reflexivity.
Qed.

Lemma concat_map_nil {A B : Type} (l : list A) :
  List.concat (map (fun _ : A => @nil B) l) = [].
Proof. induction l; auto. Qed.

Lemma concat_map_single {A B : Type} (g : A -> B) (l : list A) :
  List.concat (map (fun a => [g a]) l) = map g l.
Proof. induction l as [|a l IH]; simpl; [reflexivity|]. rewrite IH. reflexivity. Qed.

Ltac events_fields k g :=
  match goal with
  | |- context [List.concat (mapi_from ?f ?i ?l)] =>
      let Hv := fresh "Hv" in
      let Ha := fresh "Ha" in
      destruct (events_part k f g i l) as [Hv Ha];
      [ intros; reflexivity
      | intros; reflexivity
      | rewrite dump_fields by first [reflexivity | exact Ha]; rewrite Hv ]
  end.

Lemma print_json_history_fields (outs : list out_event) (pretty : bool)
  (mode started_at : string) (duration : Z) :
  let o := print_json_history outs pretty mode started_at duration in
  json_values "outputs" o = [PSize (count_press (map fst outs))]
  /\ json_values "type" o = map (fun oe => PStr (type_str (type (fst oe)))) outs
  /\ json_values "duration" o = [PFix duration].
Proof.
  unfold print_json_history, json_values.
  destruct pretty; cbn [negb]; (split; [|split]);
  first
    [ events_fields "type"%string (fun oe : out_event => [PStr (type_str (type (fst oe)))]);
      rewrite concat_map_single; simpl; rewrite ?app_nil_r; reflexivity
    | events_fields "outputs"%string (fun _ : out_event => @nil piece);
      rewrite concat_map_nil; simpl; rewrite ?app_nil_r; reflexivity
    | events_fields "duration"%string (fun _ : out_event => @nil piece);
      rewrite concat_map_nil; simpl; rewrite ?app_nil_r; reflexivity ].
Qed.

Lemma dts_from_length (p : option event) (l : list event) :
  List.length (dts_from p l) = List.length l.
Proof. revert p. induction l; intros p; simpl; auto. Qed.

Lemma print_json_from_events_fields (events : list event) (pretty : bool)
  (mode started_at : string) (duration : Z) :
  let o := print_json_from_events events pretty mode started_at duration in
  json_values "outputs" o = [PSize (count_press events)]
  /\ json_values "type" o = map (fun e => PStr (type_str (type e))) events
  /\ json_values "duration" o = [PFix duration].
Proof.
  assert (Hm : map (fun oe : out_event => PStr (type_str (type (fst oe))))
                 (combine events (dts_from None events))
               = map (fun e => PStr (type_str (type e))) events).
  { generalize (dts_from None events) (dts_from_length None events).
    induction events as [|e l IH]; intros [|d ds] Hlen; try discriminate; [reflexivity|].
    simpl. f_equal. apply IH. simpl in Hlen. lia. }
  unfold print_json_from_events, json_values.
  destruct pretty; cbn [negb]; (split; [|split]);
  first
    [ events_fields "type"%string (fun oe : out_event => [PStr (type_str (type (fst oe)))]);
      rewrite concat_map_single; simpl; rewrite ?app_nil_r; exact Hm
    | events_fields "outputs"%string (fun _ : out_event => @nil piece);
      rewrite concat_map_nil; simpl; rewrite ?app_nil_r; reflexivity
    | events_fields "duration"%string (fun _ : out_event => @nil piece);
      rewrite concat_map_nil; simpl; rewrite ?app_nil_r; reflexivity ].
Qed.

Lemma count_press_types (l : list event) :
  List.length (filter is_press_str (map (fun e => PStr (type_str (type e))) l))
  = count_press l.
Proof.
  unfold count_press.
  induction l as [|e l IH]; [reflexivity|].
  simpl. unfold is_press. destruct (type e); simpl; rewrite ?IH; reflexivity.
Qed.

(** C7: in both JSON dumps, compact and pretty, the top-level [outputs]
    field is the number of entries of [events] whose [type] is ["press"];
    motion and release entries do not change it. *)
Theorem json_outputs_counts_presses (pretty : bool) (mode started_at : string)
  (duration : Z) :
  (forall outs : list out_event,
     let o := print_json_history outs pretty mode started_at duration in
     json_values "outputs" o
     = [PSize (List.length (filter is_press_str (json_values "type" o)))])
  /\
  (forall events : list event,
     let o := print_json_from_events events pretty mode started_at duration in
     json_values "outputs" o
     = [PSize (List.length (filter is_press_str (json_values "type" o)))]).
Proof.
  split.
  - intros outs o.
    destruct (print_json_history_fields outs pretty mode started_at duration)
      as (H1 & H2 & _).
    unfold o. rewrite H1, H2.
    f_equal. f_equal. rewrite <- count_press_types, map_map. reflexivity.
  - intros events o.
    destruct (print_json_from_events_fields events pretty mode started_at duration)
      as (H1 & H2 & _).
    unfold o. rewrite H1, H2. f_equal. f_equal. symmetry. apply count_press_types.
Qed.

(** C2 (as stated, refuted): a CR that arrives right after ESC is dropped as
    the byte that failed to be [[]; no Enter is reported and the call goes on
    to end of input.  A CR inside [ESC [ < ...] is stored in the body and the
    sequence still decodes to an event. *)
Lemma crlf_mid_sequence_not_enter :
  read_sgr_event_timeout None 0 (bytes [ESC; CR]) = (RTerm, [])
  /\ read_sgr_event_timeout None 0 (bytes (ESC :: chars "[<0;1;2" ++ CR :: chars "M"))
     = (REvent (mkEvent 1 2 0 EVT_PRESS 0), []).
Proof. split; reflexivity. Qed.

(** C2 (amended): at the start of a scan (the state of every new call, and
    the state after a dropped byte or a rejected sequence) a CR or LF byte
    makes the decoder report Enter at once.  A CR or LF that arrives after
    ESC or after ESC [ is dropped like any other non-matching byte, and one
    that arrives inside ESC [ < ... while the buffer has room is appended to
    the sequence body; in neither case is Enter reported for it. *)
Theorem crlf_enter_at_scan_start (to : option Z) (now : Z) (c : ascii)
  (s : list src) (buf : list ascii) :
  is_crlf c = true ->
  scan to now DTop (Byte c :: s) = (REnter, s)
  /\ scan to now DEsc (Byte c :: s) = scan to now DTop s
  /\ scan to now DBracket (Byte c :: s) = scan to now DTop s
  /\ ((List.length buf + 2 < SGR_BUF)%nat ->
      scan to now (DBody buf) (Byte c :: s) = scan to now (DBody (buf ++ [c])) s).
Proof.
  intros Hc.
  assert (c = CR \/ c = LF) as Hcase.
  { unfold is_crlf in Hc. apply orb_true_iff in Hc as [H | H];
      apply Ascii.eqb_eq in H; auto. }
  split; [simpl; rewrite Hc; reflexivity|].
  destruct Hcase as [-> | ->]; repeat split; try reflexivity;
  intros Hlen; cbn [scan];
  (replace (SGR_BUF <=? List.length (buf ++ [_]) + 1)%nat with false
     by (symmetry; apply Nat.leb_gt; rewrite length_app; simpl; lia));
  reflexivity.
Qed.

Lemma split_semi_some (s a b : list ascii) :
  split_semi s = Some (a, b) -> s = a ++ ";"%char :: b /\ ~ In ";"%char a.
Proof.
  revert a b. induction s as [|c s IH]; intros a b H; [discriminate|].
  cbn [split_semi] in H. destruct (Ascii.eqb c ";") eqn:Ec.
  - apply Ascii.eqb_eq in Ec. subst c. inversion H; subst. split; [reflexivity|intros []].
  - destruct (split_semi s) as [[a' b']|]; [|discriminate].
    inversion H; subst. destruct (IH a' b eq_refl) as [-> Hn].
    split; [reflexivity|]. intros [Heq | Hin].
    + subst c. rewrite Ascii.eqb_refl in Ec. discriminate.
    + exact (Hn Hin).
Qed.

Lemma split_semi_none (s : list ascii) : split_semi s = None -> ~ In ";"%char s.
Proof.
  induction s as [|c s IH]; intros H; [intros []|].
  cbn [split_semi] in H. destruct (Ascii.eqb c ";") eqn:Ec; [discriminate|].
  destruct (split_semi s) as [[a b]|]; [discriminate|].
  intros [Heq | Hin]; [subst c; rewrite Ascii.eqb_refl in Ec; discriminate|exact (IH eq_refl Hin)].
Qed.

Lemma split_semi_app (f r : list ascii) :
  ~ In ";"%char f -> split_semi (f ++ ";"%char :: r) = Some (f, r).
Proof.
  induction f as [|c f IH]; intros H; [reflexivity|].
  cbn [app split_semi]. destruct (Ascii.eqb c ";") eqn:Ec.
  - apply Ascii.eqb_eq in Ec. exfalso. apply H. left. exact Ec.
  - rewrite IH; [reflexivity|]. intros Hin. apply H. right. exact Hin.
Qed.

Lemma count_occ_le_length (l : list ascii) (a : ascii) :
  (count_occ ascii_dec l a <= List.length l)%nat.
Proof.
  induction l as [|c l IH]; [reflexivity|].
  cbn [count_occ List.length]. destruct (ascii_dec c a); lia.
Qed.

Lemma cstr_length (l : list ascii) : (List.length (cstr l) <= List.length l)%nat.
Proof.
  induction l as [|c l IH]; [reflexivity|].
  cbn [cstr]. destruct (Ascii.eqb c NUL); cbn [List.length]; lia.
Qed.

Lemma count_semi_split (a b : list ascii) :
  count_occ ascii_dec (a ++ ";"%char :: b) ";"%char
  = (count_occ ascii_dec a ";"%char + S (count_occ ascii_dec b ";"%char))%nat.
Proof.
  rewrite count_occ_app. cbn [count_occ].
  destruct (ascii_dec ";" ";") as [_ | Hn]; [reflexivity | congruence].
Qed.

(** Which bodies [parse_sgr] rejects: the C string it parses is [cstr body];
    it needs two semicolons and three accepted fields around them. *)
Lemma parse_sgr_reject (body : list ascii) (c : ascii) :
  (List.length body <= 125)%nat ->
  parse_sgr ("<"%char :: body ++ [c]) = None
  <-> ((count_occ ascii_dec (cstr body) ";"%char < 2)%nat
       \/ exists f1 f2 f3 : list ascii,
            cstr body = f1 ++ ";"%char :: f2 ++ ";"%char :: f3
            /\ ~ In ";"%char f1 /\ ~ In ";"%char f2
            /\ field_ok f1 && field_ok f2 && field_ok f3 = false).
Proof.
  intros Hlen. unfold parse_sgr.
  replace ((SGR_BUF <=? List.length ("<"%char :: body ++ [c]))%nat) with false
    by (symmetry; apply Nat.leb_gt; cbn; rewrite length_app; cbn; unfold SGR_BUF; lia).
  cbn [hd tl]. change (Ascii.eqb "<" "<") with true. rewrite orb_false_r.
  cbn [negb]. rewrite orb_false_r.
  destruct (Nat.lt_ge_cases (List.length body) 2) as [Hs | Hs].
  - replace ((List.length ("<"%char :: body ++ [c]) <? 4)%nat) with true
      by (symmetry; apply Nat.ltb_lt; cbn; rewrite length_app; cbn; lia).
    split; [intros _|reflexivity]. left.
    pose proof (count_occ_le_length (cstr body) ";"%char).
    pose proof (cstr_length body). lia.
  - replace ((List.length ("<"%char :: body ++ [c]) <? 4)%nat) with false
      by (symmetry; apply Nat.ltb_ge; cbn; rewrite length_app; cbn; lia).
    replace (List.length ("<"%char :: body ++ [c]) - 2)%nat with (List.length body)
      by (cbn; rewrite length_app; cbn; lia).
    rewrite firstn_app, firstn_all, Nat.sub_diag, firstn_O, app_nil_r.
    destruct (split_semi (cstr body)) as [[p r1]|] eqn:E1.
    + pose proof E1 as E1'. apply split_semi_some in E1' as [Hb Hp].
      destruct (split_semi r1) as [[s1 s2]|] eqn:E2.
      * pose proof E2 as E2'. apply split_semi_some in E2' as [Hr Hs1]. subst r1.
        transitivity (field_ok p && field_ok s1 && field_ok s2 = false).
        -- unfold field_ok.
           repeat first
             [ progress cbn [negb andb]
             | match goal with |- context [strtol10 ?f] => destruct (strtol10 f) end
             | match goal with |- context [in_long ?v] => destruct (in_long v) end ];
           split; intros; first [reflexivity | discriminate].
        -- split.
           ++ intros H. right. exists p, s1, s2. auto.
           ++ intros [H | (f1 & f2 & f3 & Hb' & Hf1 & Hf2 & H)].
              ** rewrite Hb, !count_semi_split in H. lia.
              ** rewrite Hb', split_semi_app in E1 by exact Hf1.
                 injection E1 as <- Er.
                 rewrite <- Er, split_semi_app in E2 by exact Hf2.
                 injection E2 as <- <-. exact H.
      * split; [intros _|reflexivity]. left.
        apply split_semi_none, (count_occ_not_In ascii_dec) in E2.
        apply (count_occ_not_In ascii_dec) in Hp. rewrite Hb, count_semi_split, Hp, E2. lia.
    + split; [intros _|reflexivity]. left.
      apply split_semi_none, (count_occ_not_In ascii_dec) in E1. rewrite E1. lia.
Qed.

(** C3 (as stated, refuted): two malformed sequences that yield an event.
    A sequence cut short before its terminator is not detected: the next
    sequence's ESC [ < is appended to its body, the call returns an event
    built from the truncated fields (x = 1, y = 2), and the following valid
    sequence (x = 5, y = 6) is never decoded.  A sequence too long for the
    128-byte buffer is cut after 126 bytes of body: the last byte kept, here
    the digit 2, serves as terminator, and the call returns a Release at
    (1, 2) instead of nothing, leaving the M unread. *)
Lemma truncated_sequence_merges :
  read_sgr_event_timeout None 0
    (bytes (ESC :: chars "[<0;1;2" ++ ESC :: chars "[<0;5;6M"))
  = (REvent (mkEvent 1 2 0 EVT_PRESS 0), [])
  /\ read_sgr_event_timeout None 0
    (bytes (ESC :: chars "[<0;1;" ++ repeat " "%char 120 ++ chars "22M"))
  = (REvent (mkEvent 1 2 0 EVT_RELEASE 0), [Byte "M"%char]).
Proof. split; vm_compute; reflexivity. Qed.

(** C3 (amended): take a sequence ESC [ < body c that the decoder reads as
    one unit: the body holds no M or m, and c is a terminator M or m, or c
    is the byte that fills the 128-byte buffer (a body of 125 bytes).
    [parse_sgr] parses the body cut at its first NUL byte, [cstr body], and
    rejects the sequence exactly when that string has fewer than two
    semicolons, or when one of the three fields around its first two
    semicolons is not accepted by [field_ok] (no digits after optional
    blanks and sign, or a value outside the [long] range).  A rejected
    sequence yields no event and does not stop the decoder: the call carries
    on with the bytes after c, so the next valid sequence decodes as usual.
    An accepted one yields the event built with terminator c; when c is
    neither M nor m (a sequence cut by the full buffer) it is a Release.  A
    sequence cut short before its terminator is not detected: the bytes
    after it, including the ESC [ < of the next sequence, go into its body,
    and the call returns what [parse_sgr] makes of the merged body. *)
Theorem rejected_sequence_resyncs (to : option Z) (now : Z) (body : list ascii)
  (c : ascii) (rest : list src) :
  forallb (fun c => negb (is_term c)) body = true ->
  (is_term c = true \/ List.length body = 125%nat) ->
  (List.length body <= 125)%nat ->
  (parse_sgr ("<"%char :: body ++ [c]) = None
   <-> ((count_occ ascii_dec (cstr body) ";"%char < 2)%nat
        \/ exists f1 f2 f3 : list ascii,
             cstr body = f1 ++ ";"%char :: f2 ++ ";"%char :: f3
             /\ ~ In ";"%char f1 /\ ~ In ";"%char f2
             /\ field_ok f1 && field_ok f2 && field_ok f3 = false))
  /\
  (parse_sgr ("<"%char :: body ++ [c]) = None ->
   read_sgr_event_timeout to now (bytes (ESC :: "["%char :: "<"%char :: body ++ [c]) ++ rest)
   = read_sgr_event_timeout to now rest)
  /\
  (forall cb cx cy termch,
   parse_sgr ("<"%char :: body ++ [c]) = Some (cb, cx, cy, termch) ->
   termch = c
   /\ read_sgr_event_timeout to now
        (bytes (ESC :: "["%char :: "<"%char :: body ++ [c]) ++ rest)
      = (REvent (sgr_event now cb cx cy c), rest)
   /\ (is_term c = false -> type (sgr_event now cb cx cy c) = EVT_RELEASE))
  /\
  (forall b1 b2 : list ascii, body = b1 ++ ESC :: "["%char :: "<"%char :: b2 ->
   read_sgr_event_timeout to now
     (bytes (ESC :: "["%char :: "<"%char :: b1)
      ++ bytes (ESC :: "["%char :: "<"%char :: b2 ++ [c]) ++ rest)
   = match parse_sgr ("<"%char :: body ++ [c]) with
     | Some (cb, cx, cy, termch) => (REvent (sgr_event now cb cx cy termch), rest)
     | None => read_sgr_event_timeout to now rest
     end).
Proof.
  intros Hb Hc Hlen. split; [|split; [|split]].
  - apply parse_sgr_reject. exact Hlen.
  - intros Hp. rewrite decode_seq_any by auto. rewrite Hp. reflexivity.
  - intros cb cx cy termch Hp.
    assert (Ht : termch = c).
    { unfold parse_sgr in Hp.
      destruct (_ || _ || _); [discriminate|].
      destruct (split_semi _) as [[p r1]|]; [|discriminate].
      destruct (split_semi r1) as [[s1 s2]|]; [|discriminate].
      destruct (strtol10 p) as [v1|]; [|discriminate].
      destruct (negb (in_long v1)); [discriminate|].
      destruct (strtol10 s1) as [v2|]; [|discriminate].
      destruct (negb (in_long v2)); [discriminate|].
      destruct (strtol10 s2) as [v3|]; [|discriminate].
      destruct (negb (in_long v3)); [discriminate|].
      injection Hp as _ _ _ Hq. rewrite <- Hq.
      destruct (body ++ [c]) eqn:Eb; [destruct body; discriminate|].
      rewrite <- Eb. apply last_snoc. }
    subst termch. split; [reflexivity|split].
    + rewrite decode_seq_any by auto. rewrite Hp. reflexivity.
    + intros Hn. unfold sgr_event. cbn [type].
      unfold is_term in Hn. apply orb_false_iff in Hn as [Hn _].
      rewrite Hn. reflexivity.
  - intros b1 b2 Hbody.
    rewrite <- decode_seq_any by auto. rewrite Hbody.
    unfold bytes. rewrite app_assoc, <- map_app. f_equal. f_equal.
    simpl. rewrite <- app_assoc. reflexivity.
Qed.

(** ** Click-mode lemmas *)

Lemma presses_event (e : event) (p : list rresult) :
  presses (REvent e :: p) = (if is_press e then [e] else []) ++ presses p.
Proof. reflexivity. Qed.

Lemma presses_app (p q : list rresult) : presses (p ++ q) = presses p ++ presses q.
Proof. unfold presses. apply flat_map_app. Qed.

Lemma wait_for_first_press_spec (s : list rresult) (first : event)
  (s1 : list rresult) (log : list (option Z)) :
  wait_for_first_press s = (Some first, s1, log) ->
  exists p, s = p ++ s1 /\ presses p = [first] /\ is_press first = true.
Proof.
  revert log. induction s as [|r s IH]; intros log H; [discriminate|].
  simpl in H. destruct r as [|e| |].
  - destruct (wait_for_first_press s) as [[o rest] lg] eqn:E. inversion H; subst.
    destruct (IH lg eq_refl) as (p & -> & Hp & Hf).
    exists (RTimeout :: p). auto.
  - destruct (is_press e) eqn:Ep.
    + inversion H; subst. exists [REvent first]. simpl. rewrite Ep. auto.
    + destruct (wait_for_first_press s) as [[o rest] lg] eqn:E. inversion H; subst.
      destruct (IH lg eq_refl) as (p & -> & Hp & Hf).
      exists (REvent e :: p). simpl. rewrite Ep. auto.
  - discriminate.
  - discriminate.
Qed.

Lemma click_followups_spec (N : Z) (first : event) (s : list rresult) :
  forall count lst ev rest log,
  count <= N ->
  click_followups N first count lst s = (Some ev, rest, log) ->
  exists p, s = p ++ rest
    /\ Z.of_nat (List.length (presses p)) + count = N
    /\ last (presses p) lst = ev.
Proof.
  induction s as [|r s IH]; intros count lst ev rest log Hle H.
  - simpl in H. destruct (Z.ltb_spec count N); [discriminate|].
    destruct (Z.eqb_spec count N); [|discriminate]. inversion H; subst.
    exists []. simpl. auto with zarith.
  - simpl in H. destruct (Z.ltb_spec count N).
    + destruct r as [|e| |]; try discriminate.
      destruct (is_press e) eqn:Ep; cbn [negb] in H.
      * destruct (near first e); [|discriminate].
        destruct (click_followups N first (count + 1) e s) as [[o rs] lg] eqn:E.
        inversion H; subst.
        destruct (IH (count + 1) e ev rest lg ltac:(lia) E) as (p & -> & Hn & Hl).
        exists (REvent e :: p). rewrite presses_event, Ep. cbn [app].
        split; [reflexivity|]. split; [cbn [List.length]; lia|].
        destruct (presses p) as [|e0 l]; [simpl in Hl |- *; exact Hl|].
        rewrite <- Hl. change (last (e0 :: l) lst = last (e0 :: l) e).
        clear. revert e0. induction l as [|a l IHl]; intros e0; [reflexivity|].
        apply IHl.
      * destruct (click_followups N first count lst s) as [[o rs] lg] eqn:E.
        inversion H; subst.
        destruct (IH count lst ev rest lg Hle E) as (p & -> & Hn & Hl).
        exists (REvent e :: p). rewrite presses_event, Ep. cbn [app]. auto.
    + destruct (Z.eqb_spec count N); [|discriminate]. inversion H; subst.
      exists []. simpl. auto with zarith.
Qed.

Lemma click_detect_spec (N : Z) (s rest : list rresult) (ev : event)
  (log : list (option Z)) :
  1 <= N ->
  click_detect N s = (Some ev, rest, log) ->
  exists p l, s = p ++ rest /\ presses p = l ++ [ev] /\ Z.of_nat (List.length l) + 1 = N.
Proof.
  intros HN H. unfold click_detect in H.
  destruct (wait_for_first_press s) as [[[first|] s1] log1] eqn:W; [|discriminate].
  destruct (wait_for_first_press_spec s first s1 log1 W) as (p1 & -> & Hp1 & _).
  destruct (Z.ltb_spec 1 N).
  - destruct (click_followups N first 1 first s1) as [[res s2] log2] eqn:F.
    inversion H; subst res s2.
    destruct (click_followups_spec N first s1 1 first ev rest log2 ltac:(lia) F)
      as (p2 & -> & Hn & Hl).
    assert (Hne : presses p2 <> []) by (intros E; rewrite E in Hn; simpl in Hn; lia).
    exists (p1 ++ p2), (first :: removelast (presses p2)).
    split; [apply app_assoc|].
    split.
    + rewrite presses_app, Hp1. simpl. f_equal.
      rewrite <- Hl. apply app_removelast_last. exact Hne.
    + rewrite (app_removelast_last first Hne), length_app in Hn.
      cbn [List.length]. simpl in Hn. lia.
  - inversion H; subst.
    exists p1, []. split; [reflexivity|]. split; [exact Hp1|]. simpl; lia.
Qed.

(** C4: when multiclick detection with required count [N] succeeds, the
    reported event is the last Press accepted: the Presses consumed are the
    anchor and [N - 1] more, the reported event is the last of them (the
    anchor itself for [N = 1]), and it is what [handle_click_mode] prints,
    with exit status 0. *)
Theorem click_reports_last_press (N : Z) (om : outmode) (dm : bool)
  (started_at : string) (calloc_ok : bool) (s rest : list rresult) (ev : event)
  (log : list (option Z)) :
  1 <= N ->
  click_detect N s = (Some ev, rest, log) ->
  exists p l,
    s = p ++ rest
    /\ presses p = l ++ [ev]
    /\ Z.of_nat (List.length l) + 1 = N
    /\ rc (handle_click_mode N om dm started_at calloc_ok s) = 0
    /\ click_out (handle_click_mode N om dm started_at calloc_ok s)
       = click_report om started_at calloc_ok ev.
Proof.
  intros HN H.
  destruct (click_detect_spec N s rest ev log HN H) as (p & l & Hs & Hp & Hl).
  exists p, l. split; [exact Hs|]. split; [exact Hp|]. split; [exact Hl|].
  unfold handle_click_mode; rewrite H; split; reflexivity.
Qed.

(** ** Main-loop lemmas *)

Lemma limit_check_spec (cfg : config) (st3 : mstate) (b : bool) :
  infinite cfg = false -> 0 <= count_limit cfg ->
  0 <= outputs st3 < press_limit cfg ->
  match limit_check cfg st3 b with
  | Continue st' => outputs st' = outputs st3 + bump b /\ outputs st' < press_limit cfg
  | Break StopLimit st' =>
      outputs st' = outputs st3 + bump b /\ outputs st' = press_limit cfg /\ b = true
  | Break _ _ => False
  end.
Proof.
  intros Hinf Hcl Ho. unfold limit_check, press_limit in *. rewrite Hinf. cbn [negb andb].
  cbn [outputs set_outputs].
  remember (count_limit cfg) as c eqn:Ec.
  remember (outputs st3) as o eqn:Eo.
  destruct (Z.eqb_spec c 0) as [E|E]; cbn [andb].
  - rewrite E in *. cbn [Z.ltb Z.compare andb]. destruct b; cbn [bump] in *;
      [destruct (Z.leb_spec 1 (o + 1)) | destruct (Z.leb_spec 1 (o + 0))];
      cbv beta iota; cbn [outputs set_outputs]; repeat split; lia.
  - destruct (Z.ltb_spec 0 c); [|lia]. cbn [andb].
    destruct b; cbn [bump] in *;
      [destruct (Z.leb_spec c (o + 1)) | destruct (Z.leb_spec c (o + 0))];
      cbv beta iota; cbn [outputs set_outputs]; repeat split; lia.
Qed.

Lemma stream_event_spec (cfg : config) (alloc : nat -> bool) (st : mstate)
  (cur : Z) (ev : event) :
  infinite cfg = false -> 0 <= count_limit cfg ->
  0 <= outputs st < press_limit cfg ->
  match stream_event cfg alloc st cur ev with
  | Continue st' =>
      outputs st' = outputs st + bump (is_press ev) /\ outputs st' < press_limit cfg
  | Break StopLimit st' =>
      outputs st' = outputs st + bump (is_press ev) /\ outputs st' = press_limit cfg
      /\ is_press ev = true
  | Break StopOOM st' =>
      outputs st' = outputs st /\ (out_mode cfg = OUT_JSON \/ out_mode cfg = OUT_PRETTY)
  | Break _ _ => False
  end.
Proof.
  intros Hinf Hcl Ho. unfold stream_event.
  assert (HL : forall st3 b, outputs st3 = outputs st ->
    match limit_check cfg st3 b with
    | Continue st' => outputs st' = outputs st + bump b /\ outputs st' < press_limit cfg
    | Break StopLimit st' =>
        outputs st' = outputs st + bump b /\ outputs st' = press_limit cfg /\ b = true
    | Break _ _ => False
    end).
  { intros st3 b E. rewrite <- E. apply limit_check_spec; auto. rewrite E; auto. }
  destruct (out_mode cfg) eqn:Em;
    repeat match goal with
    | |- context [if ?c then _ else _] =>
        lazymatch c with context [limit_check] => fail | _ => destruct c end
    end;
    try (split; [reflexivity|]; (left; reflexivity) || (right; reflexivity));
    match goal with
    | |- context [limit_check cfg ?s3 ?b] =>
        specialize (HL s3 b eq_refl); destruct (limit_check cfg s3 b) as [?|[] ?]; tauto
    end.
Qed.

Lemma loop_post_cons (cfg : config) (r : stop) (st' : mstate) (p rest : list step)
  (stp : step) :
  ends_loop (res stp) = false -> loop_post cfg r st' p rest ->
  loop_post cfg r st' (stp :: p) rest.
Proof.
  intros Hs H. unfold loop_post, no_stop_steps in *. destruct r.
  - exact H.
  - destruct H as [Ho [(p0 & c & -> & Hn) | [Hr Hn]]]; split; auto.
    + left. exists (stp :: p0), c. cbn [forallb app]. rewrite Hs, Hn. auto.
    + right. cbn [forallb]. rewrite Hs, Hn. auto.
  - destruct H as [Ho (p0 & c & -> & Hn)]. split; auto.
    exists (stp :: p0), c. cbn [forallb app]. rewrite Hs, Hn. auto.
  - destruct H as [Ho [Hm (p0 & c & e & -> & Hn)]]. split; auto. split; auto.
    exists (stp :: p0), c, e. cbn [forallb app]. rewrite Hs, Hn. auto.
  - destruct H as [Ho (p0 & c & e & -> & He & Hn)]. split; auto.
    exists (stp :: p0), c, e. cbn [forallb app]. rewrite Hs, Hn. auto.
Qed.

Lemma counted_cons (cfg : config) (r : stop) (st' : mstate) (p rest : list step)
  (stp : step) :
  loop_post cfg r st' p rest -> counted r (stp :: p) = stp :: counted r p.
Proof.
  intros H. destruct r; try reflexivity.
  destruct H as (_ & _ & p0 & c & e & -> & _). cbn [counted].
  rewrite app_comm_cons, !removelast_last. reflexivity.
Qed.

Lemma step_presses_count (stp : step) (p : list step) :
  Z.of_nat (List.length (step_presses (stp :: p)))
  = bump (match res stp with REvent e => is_press e | _ => false end)
    + Z.of_nat (List.length (step_presses p)).
Proof.
  unfold step_presses. cbn [map]. destruct (res stp) as [|e| |]; try reflexivity.
  rewrite presses_event. destruct (is_press e); cbn [bump app List.length]; lia.
Qed.

Lemma main_loop_limited (cfg : config) (maxev : nat) (alloc : nat -> bool)
  (rec_start : Z) (s : list step) :
  forall st r st' rest,
  record_mode cfg = false -> infinite cfg = false -> 0 <= count_limit cfg ->
  0 <= outputs st < press_limit cfg ->
  main_loop cfg maxev alloc rec_start st s = (r, st', rest) ->
  exists p, s = p ++ rest
    /\ outputs st' = outputs st + Z.of_nat (List.length (step_presses (counted r p)))
    /\ loop_post cfg r st' p rest.
Proof.
  induction s as [|[c rr] s IH]; intros st r st' rest Hrec Hinf Hcl Ho H.
  - cbn in H. inversion H; subst. exists []. split; [reflexivity|].
    split; [cbn; lia|]. cbn. split; [lia|]. right; auto.
  - cbn [main_loop] in H. rewrite Hrec in H. cbn [andb res clk] in H.
    destruct rr as [|e| |].
    + destruct (IH st r st' rest Hrec Hinf Hcl Ho H) as (p & -> & Hout & Hp).
      exists (mkStep c RTimeout :: p). split; [reflexivity|].
      rewrite (counted_cons cfg r st' p rest _ Hp), step_presses_count. split; [cbn [res bump]; lia|].
      apply loop_post_cons; auto.
    + destruct (stream_event cfg alloc st c e) as [st1|r1 st1] eqn:Es;
        pose proof (stream_event_spec cfg alloc st c e Hinf Hcl Ho) as Hs;
        rewrite Es in Hs.
      * destruct Hs as [Ho1 Hl1].
        assert (0 <= bump (is_press e)) by (destruct (is_press e); cbn; lia).
        destruct (IH st1 r st' rest Hrec Hinf Hcl ltac:(lia) H) as (p & -> & Hout & Hp).
        exists (mkStep c (REvent e) :: p). split; [reflexivity|].
        rewrite (counted_cons cfg r st' p rest _ Hp), step_presses_count. split; [cbn [res]; lia|].
        apply loop_post_cons; auto.
      * injection H as -> -> ->.
        exists [mkStep c (REvent e)]. split; [reflexivity|].
        destruct r; try contradiction.
        -- destruct Hs as [H1 H2]. split; [cbn; lia|]. split; [lia|]. split; [exact H2|].
           exists [], c, e. auto.
        -- destruct Hs as (H1 & H2 & H3). cbn [counted].
           rewrite step_presses_count. cbn [res step_presses map presses flat_map List.length Z.of_nat].
           split; [lia|]. split; [lia|].
           exists [], c, e. auto.
    + inversion H; subst. exists [mkStep c RTerm]. split; [reflexivity|].
      cbn. split; [lia|]. split; [lia|].
      left. exists [], c. auto.
    + inversion H; subst. exists [mkStep c REnter]. split; [reflexivity|].
      cbn. split; [lia|]. split; [lia|].
      exists [], c. auto.
Qed.

(** C6: in single/limited capture mode (no [-i], no [-r], limit [-n N] with
    [N >= 0], the default [N = 0] meaning one press), starting from the
    initial state, the loop consumes a prefix [p] of the steps; [outputs]
    is the number of Press events in it (without the event lost at a
    [realloc] failure), Motion and Release never count; the loop stops with
    the press limit exactly at the Press that makes [outputs] reach it, or
    on Enter or end of input (read returning -1) before the limit is
    reached, or on a failed [realloc] of the JSON history; never on time. *)
Theorem limited_mode_stops_at_press_limit (cfg : config) (maxev : nat)
  (alloc : nat -> bool) (rec_start : Z) (s : list step) (r : stop)
  (st' : mstate) (rest : list step) :
  record_mode cfg = false -> infinite cfg = false -> 0 <= count_limit cfg ->
  main_loop cfg maxev alloc rec_start init_state s = (r, st', rest) ->
  exists p, s = p ++ rest
    /\ outputs st' = Z.of_nat (List.length (step_presses (counted r p)))
    /\ match r with
       | StopLimit => outputs st' = press_limit cfg /\
           exists p0 c e, p = p0 ++ [mkStep c (REvent e)] /\ is_press e = true
                          /\ no_stop_steps p0 = true
       | StopEnter => outputs st' < press_limit cfg /\
           exists p0 c, p = p0 ++ [mkStep c REnter] /\ no_stop_steps p0 = true
       | StopTerm => outputs st' < press_limit cfg /\
           ((exists p0 c, p = p0 ++ [mkStep c RTerm] /\ no_stop_steps p0 = true)
            \/ (rest = [] /\ no_stop_steps p = true))
       | StopOOM => outputs st' < press_limit cfg
           /\ (out_mode cfg = OUT_JSON \/ out_mode cfg = OUT_PRETTY)
           /\ exists p0 c e, p = p0 ++ [mkStep c (REvent e)] /\ no_stop_steps p0 = true
       | StopTime => False
       end.
Proof.
  intros Hrec Hinf Hcl H.
  assert (Hl : 0 <= outputs init_state < press_limit cfg).
  { cbn [outputs init_state]. unfold press_limit.
    destruct (Z.eqb_spec (count_limit cfg) 0); lia. }
  destruct (main_loop_limited cfg maxev alloc rec_start s init_state r st' rest
              Hrec Hinf Hcl Hl H) as (p & Hs & Ho & Hp).
  exists p. split; [exact Hs|]. split; [exact Ho|]. exact Hp.
Qed.

Lemma record_post_cons (cfg : config) (rec_start : Z) (r : stop) (p rest : list step)
  (stp : step) :
  ends_loop (res stp) = false -> record_post cfg rec_start r p rest ->
  record_post cfg rec_start r (stp :: p) rest.
Proof.
  intros Hs H. unfold record_post, no_stop_steps in *. destruct r; try contradiction.
  - destruct H as [Hn H]. split; auto. cbn [forallb]. rewrite Hs, Hn. reflexivity.
  - destruct H as [(p0 & c & -> & Hn) | [Hr Hn]].
    + left. exists (stp :: p0), c. cbn [forallb app]. rewrite Hs, Hn. auto.
    + right. cbn [forallb]. rewrite Hs, Hn. auto.
  - destruct H as (p0 & c & -> & Hn).
    exists (stp :: p0), c. cbn [forallb app]. rewrite Hs, Hn. auto.
Qed.

Lemma received_cons (stp : step) (p : list step) :
  received (stp :: p)
  = match res stp with REvent e => [e] | _ => [] end ++ received p.
Proof. reflexivity. Qed.

Lemma main_loop_record (cfg : config) (maxev : nat) (alloc : nat -> bool)
  (rec_start : Z) (s : list step) :
  forall st r st' rest,
  record_mode cfg = true ->
  main_loop cfg maxev alloc rec_start st s = (r, st', rest) ->
  exists p, s = p ++ rest
    /\ st' = fold_left (record_event maxev) (received p) st
    /\ forallb (time_left cfg rec_start) p = true
    /\ record_post cfg rec_start r p rest.
Proof.
  induction s as [|[c rr] s IH]; intros st r st' rest Hrec H.
  - cbn in H. inversion H; subst. exists []. cbn. repeat split; auto.
  - cbn [main_loop] in H. rewrite Hrec in H. cbn [andb res clk] in H.
    destruct (Z.leb_spec (record_ns cfg - (c - rec_start)) 0) as [Hle|Hgt].
    + inversion H; subst. exists []. cbn. split; [reflexivity|]. split; [reflexivity|].
      split; [reflexivity|]. split; [reflexivity|].
      exists (mkStep c rr), s. split; [reflexivity|].
      unfold time_left. cbn [clk]. apply Z.ltb_ge. lia.
    + assert (Ht : time_left cfg rec_start (mkStep c rr) = true)
        by (unfold time_left; cbn [clk]; apply Z.ltb_lt; lia).
      destruct rr as [|e| |].
      * destruct (IH st r st' rest Hrec H) as (p & -> & Hst & Hf & Hp).
        exists (mkStep c RTimeout :: p). split; [reflexivity|].
        split; [exact Hst|]. split; [cbn [forallb]; rewrite Ht, Hf; reflexivity|].
        apply record_post_cons; auto.
      * destruct (IH (record_event maxev st e) r st' rest Hrec H) as (p & -> & Hst & Hf & Hp).
        exists (mkStep c (REvent e) :: p). split; [reflexivity|].
        split; [exact Hst|]. split; [cbn [forallb]; rewrite Ht, Hf; reflexivity|].
        apply record_post_cons; auto.
      * inversion H; subst. exists [mkStep c RTerm]. cbn. rewrite Ht.
        split; [reflexivity|]. split; [reflexivity|]. split; [reflexivity|].
        left. exists [], c. auto.
      * inversion H; subst. exists [mkStep c REnter]. cbn. rewrite Ht.
        split; [reflexivity|]. split; [reflexivity|]. split; [reflexivity|].
        exists [], c. auto.
Qed.

Lemma main_loop_record_ctrl (cfg : config) (m1 m2 : nat) (alloc : nat -> bool)
  (rec_start : Z) (s : list step) :
  forall st1 st2,
  record_mode cfg = true ->
  fst (fst (main_loop cfg m1 alloc rec_start st1 s))
    = fst (fst (main_loop cfg m2 alloc rec_start st2 s))
  /\ snd (main_loop cfg m1 alloc rec_start st1 s)
    = snd (main_loop cfg m2 alloc rec_start st2 s).
Proof.
  induction s as [|[c rr] s IH]; intros st1 st2 Hrec; [split; reflexivity|].
  cbn [main_loop]. rewrite Hrec. cbn [andb res clk].
  destruct (_ <=? 0); [split; reflexivity|].
  destruct rr; try (split; reflexivity); apply IH; exact Hrec.
Qed.

Lemma record_event_fold (maxev : nat) (l : list event) :
  forall st, (List.length (events st) <= maxev)%nat ->
  events (fold_left (record_event maxev) l st) = firstn maxev (events st ++ l)
  /\ outs (fold_left (record_event maxev) l st) = outs st
  /\ outputs (fold_left (record_event maxev) l st) = outputs st
  /\ marks (fold_left (record_event maxev) l st) = marks st
  /\ out (fold_left (record_event maxev) l st) = out st.
Proof.
  induction l as [|e l IH]; intros st Hle.
  - cbn. rewrite app_nil_r, firstn_all2 by exact Hle. auto.
  - cbn [fold_left].
    destruct (Nat.ltb_spec (List.length (events st)) maxev) as [Hlt|Hge].
    + assert (E : record_event maxev st e = set_events st (events st ++ [e]))
        by (unfold record_event; rewrite (proj2 (Nat.ltb_lt _ _) Hlt); reflexivity).
      rewrite E.
      destruct (IH (set_events st (events st ++ [e]))) as (H1 & H2 & H3 & H4 & H5).
      { cbn [events set_events]. rewrite length_app. cbn [List.length]. lia. }
      cbn [events outs outputs marks out set_events] in *.
      rewrite H1, H2, H3, H4, H5, <- app_assoc. auto.
    + assert (E : record_event maxev st e = st)
        by (unfold record_event; rewrite (proj2 (Nat.ltb_ge _ _) Hge); reflexivity).
      rewrite E.
      destruct (IH st Hle) as (H1 & H2 & H3 & H4 & H5).
      rewrite H1, H2, H3, H4, H5. repeat split; auto.
      assert (List.length (events st) = maxev) by lia.
      rewrite !firstn_app. subst maxev. rewrite Nat.sub_diag, !firstn_O, !firstn_all.
      reflexivity.
Qed.

(** C8: in record mode the buffer capacity is [max_events_of] of the
    configured duration (milliseconds plus 1024, capped at [MAX_EVENTS] =
    65536, so between 1024 and 65536).  For every run, the stored events are
    the first [capacity] received events in arrival order: events after the
    buffer is full are dropped and the stored ones kept (no ring buffer);
    the buffer being full changes neither when nor why the loop stops
    (the same stop and remaining input for every capacity and start state),
    and the loop only stops when the remaining time is <= 0, on Enter, or
    at end of input. *)
Theorem record_mode_hard_cap (cfg : config) (alloc : nat -> bool) (rec_start : Z)
  (s : list step) (r : stop) (st' : mstate) (rest : list step) :
  record_mode cfg = true ->
  main_loop cfg (max_events_of (record_ns cfg)) alloc rec_start init_state s
    = (r, st', rest) ->
  (1024 <= max_events_of (record_ns cfg) <= MAX_EVENTS)%nat
  /\ exists p, s = p ++ rest
    /\ events st' = firstn (max_events_of (record_ns cfg)) (received p)
    /\ forallb (time_left cfg rec_start) p = true
    /\ (forall (maxev : nat) (st0 : mstate), exists st'',
          main_loop cfg maxev alloc rec_start st0 s = (r, st'', rest))
    /\ match r with
       | StopTime => no_stop_steps p = true /\
           exists stp rest', rest = stp :: rest' /\ time_left cfg rec_start stp = false
       | StopEnter => exists p0 c, p = p0 ++ [mkStep c REnter] /\ no_stop_steps p0 = true
       | StopTerm => (exists p0 c, p = p0 ++ [mkStep c RTerm] /\ no_stop_steps p0 = true)
                     \/ (rest = [] /\ no_stop_steps p = true)
       | _ => False
       end.
Proof.
  intros Hrec H. split.
  { unfold max_events_of. split; [|apply Nat.le_min_r].
    apply Nat.min_glb; [apply Nat.le_add_l | apply Nat.leb_le; vm_compute; reflexivity]. }
  destruct (main_loop_record cfg _ alloc rec_start s init_state r st' rest Hrec H)
    as (p & Hs & Hst & Hf & Hp).
  exists p. split; [exact Hs|]. split.
  { rewrite Hst. destruct (record_event_fold (max_events_of (record_ns cfg)) (received p)
      init_state ltac:(cbn; lia)) as [He _]. exact He. }
  split; [exact Hf|]. split; [|exact Hp].
  intros maxev st0.
  destruct (main_loop_record_ctrl cfg maxev (max_events_of (record_ns cfg)) alloc rec_start s
              st0 init_state Hrec) as [E1 E2].
  rewrite H in E1, E2. cbn in E1, E2.
  destruct (main_loop cfg maxev alloc rec_start st0 s) as [[r1 st1] rest1].
  cbn in E1, E2. subst. eauto.
Qed.

(** C10: in record mode with JSON or pretty JSON output, unless the run
    ended before the loop because the event buffer could not be allocated
    (then nothing is printed): without [-o] the output on [stdout] has
    exactly one [duration] field, whose value is the timestamp of the last
    stored event minus that of the first one, or 0 when fewer than two
    events were stored, and the configured recording time does not enter
    it; with [-o] the dump is written to the [FILE*] that
    [restore_terminal()] has just closed, which is undefined behaviour, and
    no [duration] field is produced. *)
Theorem record_duration_field (cfg : config) (to_file : bool) (alloc : nat -> bool)
  (rec_start : Z) (started_at : string) (s : list step) (r : stop) (st : mstate)
  (o : option (list piece)) :
  record_mode cfg = true ->
  out_mode cfg = OUT_JSON \/ out_mode cfg = OUT_PRETTY ->
  main_run cfg to_file alloc rec_start started_at s = (r, st, o) ->
  (r = StopOOM /\ o = Some [])
  \/ (to_file = false /\ exists o', o = Some o'
       /\ json_values "duration" o'
          = [PFix (match events st with
                   | e0 :: _ :: _ => t (last (events st) e0) - t e0
                   | _ => 0
                   end)])
  \/ (to_file = true /\ o = None).
Proof.
  intros Hrec Hm H. unfold main_run in H. rewrite Hrec in H. cbn [andb] in H.
  destruct (alloc (max_events_of (record_ns cfg))); cbn [negb] in H.
  2: { inversion H; subst. left. split; reflexivity. }
  destruct (main_loop cfg (max_events_of (record_ns cfg)) alloc rec_start init_state s)
    as [[r1 st1] rest1] eqn:E.
  assert (Hu : dump_uses_out_fp cfg st1 = true).
  { unfold dump_uses_out_fp. rewrite Hrec. destruct Hm as [Hm|Hm]; rewrite Hm; reflexivity. }
  rewrite Hu in H. destruct to_file; cbn [andb] in H.
  { inversion H; subst. right. right. split; reflexivity. }
  inversion H; subst r st o. right. left. split; [reflexivity|].
  eexists. split; [reflexivity|].
  destruct (main_loop_record cfg _ alloc rec_start s init_state r1 st1 rest1 Hrec E)
    as (p & _ & Hst & _ & _).
  destruct (record_event_fold (max_events_of (record_ns cfg)) (received p) init_state
              ltac:(cbn; lia)) as (_ & _ & _ & _ & Hout).
  rewrite <- Hst in Hout. rewrite Hout. cbn [out init_state app].
  unfold main_finish. rewrite Hrec.
  destruct Hm as [Hm|Hm]; rewrite Hm;
    apply print_json_from_events_fields.
Qed.






(** C5: the squared distance of a follow-up Press to the anchor is computed
    in [int].  For an anchor at (1,1) and a Press at (46342,1), both decoded
    from the byte stream, [dx * dx] = 46341 * 46341 exceeds INT_MAX and
    wraps to a negative value, so the Press passes the radius test although
    its squared distance 2147488281 exceeds 9: [-c 2] succeeds and reports
    the far Press. *)
Lemma far_press_accepted_after_overflow :
  let e1 := mkEvent 1 1 0 EVT_PRESS 0 in
  let e2 := mkEvent 46342 1 0 EVT_PRESS 0 in
  read_sgr_event_timeout None 0
    (bytes (ESC :: chars "[<0;1;1M" ++ ESC :: chars "[<0;46342;1M"))
    = (REvent e1, bytes (ESC :: chars "[<0;46342;1M"))
  /\ read_sgr_event_timeout (Some 500000) 0 (bytes (ESC :: chars "[<0;46342;1M"))
     = (REvent e2, [])
  /\ (x e1 - x e2) * (x e1 - x e2) + (y e1 - y e2) * (y e1 - y e2)
       > MULTICLICK_RADIUS * MULTICLICK_RADIUS
  /\ int_mul (int_sub (x e1) (x e2)) (int_sub (x e1) (x e2)) = -2147479015
  /\ near e1 e2 = true
  /\ rc (handle_click_mode 2 OUT_CSV false "" true [REvent e1; REvent e2]) = 0
  /\ click_out (handle_click_mode 2 OUT_CSV false "" true [REvent e1; REvent e2])
     = print_csv e2.
Proof. vm_compute. repeat split; try reflexivity; discriminate. Qed.

(** ** Instances of the theorems at concrete inputs *)

Lemma decode_valid_sgr_witness :
  exists e,
    read_sgr_event_timeout None 7 (bytes (sgr_seq (chars "0") (chars "12") (chars "5") "M"%char) ++ [])
      = (REvent e, [])
    /\ x e = 12 /\ y e = 5 /\ button e = 0
    /\ (type e = EVT_PRESS <-> "M"%char = "M"%char /\ 0 < 32)
    /\ (type e = EVT_MOTION <-> "M"%char = "M"%char /\ 0 >= 32)
    /\ (type e = EVT_RELEASE <-> "M"%char = "m"%char).
Proof.
  apply (decode_valid_sgr None 7 (chars "0") (chars "12") (chars "5") "M"%char []);
    try reflexivity; try discriminate; try (left; reflexivity); vm_compute; try discriminate.
  repeat constructor.
Defined.

Lemma crlf_enter_at_scan_start_witness :
  scan None 0 DTop (Byte CR :: bytes (chars "x")) = (REnter, bytes (chars "x"))
  /\ scan None 0 DEsc (Byte CR :: bytes (chars "x")) = scan None 0 DTop (bytes (chars "x"))
  /\ scan None 0 DBracket (Byte CR :: bytes (chars "x")) = scan None 0 DTop (bytes (chars "x"))
  /\ scan None 0 (DBody ["<"%char]) (Byte CR :: bytes (chars "x"))
     = scan None 0 (DBody ["<"%char; CR]) (bytes (chars "x")).
Proof.
  destruct (crlf_enter_at_scan_start None 0 CR (bytes (chars "x")) ["<"%char] eq_refl)
    as (H1 & H2 & H3 & H4).
  split; [exact H1|]. split; [exact H2|]. split; [exact H3|].
  apply H4. vm_compute. repeat constructor.
Defined.

Lemma rejected_sequence_resyncs_witness :
  read_sgr_event_timeout None 0
    (bytes (ESC :: "["%char :: "<"%char :: chars "0;x;5" ++ ["M"%char])
     ++ bytes (ESC :: chars "[<0;12;5M"))
  = read_sgr_event_timeout None 0 (bytes (ESC :: chars "[<0;12;5M")).
Proof.
  apply (proj1 (proj2 (rejected_sequence_resyncs None 0 (chars "0;x;5") "M"%char
                  (bytes (ESC :: chars "[<0;12;5M")) eq_refl (or_introl eq_refl)
                  ltac:(vm_compute; repeat constructor)))).
  vm_compute. reflexivity.
Defined.

Lemma click_reports_last_press_witness :
  exists p l,
    [press 10 10 0; press 11 10 1; press 10 11 2] = p ++ []
    /\ presses p = l ++ [mkEvent 10 11 0 EVT_PRESS 2]
    /\ Z.of_nat (List.length l) + 1 = 3
    /\ rc (handle_click_mode 3 OUT_CSV false "" true [press 10 10 0; press 11 10 1; press 10 11 2]) = 0
    /\ click_out (handle_click_mode 3 OUT_CSV false "" true [press 10 10 0; press 11 10 1; press 10 11 2])
       = click_report OUT_CSV "" true (mkEvent 10 11 0 EVT_PRESS 2).
Proof.
  apply (click_reports_last_press 3 OUT_CSV false "" true
           [press 10 10 0; press 11 10 1; press 10 11 2] [] (mkEvent 10 11 0 EVT_PRESS 2)
           [None; Some 500000; Some 500000]).
  - lia.
  - vm_compute. reflexivity.
Defined.

Lemma limited_mode_stops_at_press_limit_witness :
  let '(r, st', rest) :=
    main_loop ex_limit_cfg 0 (fun _ => true) 0 init_state ex_limit_steps in
  r = StopLimit /\ rest = [mkStep 5 REnter] /\
  exists p, ex_limit_steps = p ++ rest
    /\ outputs st' = Z.of_nat (List.length (step_presses (counted r p)))
    /\ match r with
       | StopLimit => outputs st' = press_limit ex_limit_cfg /\
           exists p0 c e, p = p0 ++ [mkStep c (REvent e)] /\ is_press e = true
                          /\ no_stop_steps p0 = true
       | StopEnter => outputs st' < press_limit ex_limit_cfg /\
           exists p0 c, p = p0 ++ [mkStep c REnter] /\ no_stop_steps p0 = true
       | StopTerm => outputs st' < press_limit ex_limit_cfg /\
           ((exists p0 c, p = p0 ++ [mkStep c RTerm] /\ no_stop_steps p0 = true)
            \/ (rest = [] /\ no_stop_steps p = true))
       | StopOOM => outputs st' < press_limit ex_limit_cfg
           /\ (out_mode ex_limit_cfg = OUT_JSON \/ out_mode ex_limit_cfg = OUT_PRETTY)
           /\ exists p0 c e, p = p0 ++ [mkStep c (REvent e)] /\ no_stop_steps p0 = true
       | StopTime => False
       end.
Proof.
  destruct (main_loop ex_limit_cfg 0 (fun _ => true) 0 init_state ex_limit_steps)
    as [[r st'] rest] eqn:E.
  assert (Hr : r = StopLimit /\ rest = [mkStep 5 REnter]).
  { vm_compute in E. inversion E. split; reflexivity. }
  split; [exact (proj1 Hr)|]. split; [exact (proj2 Hr)|].
  exact (limited_mode_stops_at_press_limit ex_limit_cfg 0 (fun _ => true) 0 ex_limit_steps
           r st' rest eq_refl eq_refl ltac:(vm_compute; discriminate) E).
Defined.

Lemma record_mode_hard_cap_witness :
  let '(r, st', rest) :=
    main_loop ex_record_cfg (max_events_of (record_ns ex_record_cfg)) (fun _ => true) 10
      init_state ex_record_steps in
  r = StopTime /\ events st' = [mkEvent 3 4 0 EVT_PRESS 10; mkEvent 3 4 0 EVT_RELEASE 20] /\
  (1024 <= max_events_of (record_ns ex_record_cfg) <= MAX_EVENTS)%nat
  /\ exists p, ex_record_steps = p ++ rest
    /\ events st' = firstn (max_events_of (record_ns ex_record_cfg)) (received p)
    /\ forallb (time_left ex_record_cfg 10) p = true
    /\ (forall (maxev : nat) (st0 : mstate), exists st'',
          main_loop ex_record_cfg maxev (fun _ => true) 10 st0 ex_record_steps = (r, st'', rest))
    /\ match r with
       | StopTime => no_stop_steps p = true /\
           exists stp rest', rest = stp :: rest' /\ time_left ex_record_cfg 10 stp = false
       | StopEnter => exists p0 c, p = p0 ++ [mkStep c REnter] /\ no_stop_steps p0 = true
       | StopTerm => (exists p0 c, p = p0 ++ [mkStep c RTerm] /\ no_stop_steps p0 = true)
                     \/ (rest = [] /\ no_stop_steps p = true)
       | _ => False
       end.
Proof.
  destruct (main_loop ex_record_cfg (max_events_of (record_ns ex_record_cfg)) (fun _ => true)
              10 init_state ex_record_steps) as [[r st'] rest] eqn:E.
  assert (Hr : r = StopTime
               /\ events st' = [mkEvent 3 4 0 EVT_PRESS 10; mkEvent 3 4 0 EVT_RELEASE 20]).
  { vm_compute in E. inversion E. split; reflexivity. }
  split; [exact (proj1 Hr)|]. split; [exact (proj2 Hr)|].
  exact (record_mode_hard_cap ex_record_cfg (fun _ => true) 10 ex_record_steps r st' rest
           eq_refl E).
Defined.


Lemma record_duration_field_witness :
  main_run ex_record_cfg true (fun _ => true) 10 "2026-01-01T00:00:00Z" ex_record_steps
    = (StopTime, snd (fst (main_run ex_record_cfg false (fun _ => true) 10
                              "2026-01-01T00:00:00Z" ex_record_steps)), None)
  /\ ((StopTime = StopOOM /\ @None (list piece) = Some [])
      \/ (true = false /\ exists o', @None (list piece) = Some o'
           /\ json_values "duration" o'
              = [PFix (match events (snd (fst (main_run ex_record_cfg false (fun _ => true) 10
                                           "2026-01-01T00:00:00Z" ex_record_steps))) with
                       | e0 :: _ :: _ => t (last (events (snd (fst (main_run ex_record_cfg false
                                           (fun _ => true) 10 "2026-01-01T00:00:00Z"
                                           ex_record_steps)))) e0) - t e0
                       | _ => 0
                       end)])
      \/ (true = true /\ @None (list piece) = None)).
Proof.
  assert (E : main_run ex_record_cfg true (fun _ => true) 10 "2026-01-01T00:00:00Z"
                ex_record_steps
              = (StopTime, snd (fst (main_run ex_record_cfg false (fun _ => true) 10
                                        "2026-01-01T00:00:00Z" ex_record_steps)), None))
    by (vm_compute; reflexivity).
  split; [exact E|].
  exact (record_duration_field ex_record_cfg true (fun _ => true) 10 "2026-01-01T00:00:00Z"
           ex_record_steps _ _ _ eq_refl (or_introl eq_refl) E).
Defined.


(** ** The event fields of the JSON dumps *)

Lemma print_json_history_event_fields (outs : list out_event) (pretty : bool)
  (mode started_at : string) (duration : Z) :
  let o := print_json_history outs pretty mode started_at duration in
  json_values "x" o = map (fun oe => PInt (x (fst oe))) outs
  /\ json_values "y" o = map (fun oe => PInt (y (fst oe))) outs
  /\ json_values "button" o = map (fun oe => PInt (button (fst oe))) outs
  /\ json_values "dt" o = map (fun oe => PFix (snd oe)) outs.
Proof.
  unfold print_json_history, json_values.
  destruct pretty; cbn [negb]; (split; [|split; [|split]]);
  first
    [ events_fields "x"%string (fun oe : out_event => [PInt (x (fst oe))])
    | events_fields "y"%string (fun oe : out_event => [PInt (y (fst oe))])
    | events_fields "button"%string (fun oe : out_event => [PInt (button (fst oe))])
    | events_fields "dt"%string (fun oe : out_event => [PFix (snd oe)]) ];
  rewrite concat_map_single; simpl; rewrite ?app_nil_r; reflexivity.
Qed.

Lemma map_combine_fst {A B C : Type} (f : A -> C) (l1 : list A) (l2 : list B) :
  List.length l1 = List.length l2 -> map (fun ab => f (fst ab)) (combine l1 l2) = map f l1.
Proof.
  revert l2. induction l1 as [|a l1 IH]; intros [|b l2] H; try discriminate; [reflexivity|].
  simpl. f_equal. apply IH. simpl in H. lia.
Qed.

Lemma map_combine_snd {A B C : Type} (f : B -> C) (l1 : list A) (l2 : list B) :
  List.length l1 = List.length l2 -> map (fun ab => f (snd ab)) (combine l1 l2) = map f l2.
Proof.
  revert l2. induction l1 as [|a l1 IH]; intros [|b l2] H; try discriminate; [reflexivity|].
  simpl. f_equal. apply IH. simpl in H. lia.
Qed.

Lemma dts_from_some (p : event) (l : list event) :
  dts_from (Some p) l
  = map (fun ab => snd ab - fst ab) (combine (t p :: map t l) (map t l)).
Proof.
  revert p. induction l as [|e l IH]; intros p; [reflexivity|].
  cbn [dts_from map combine]. rewrite IH. reflexivity.
Qed.

Lemma dts_from_deltas (l : list event) : dts_from None l = time_deltas (map t l).
Proof.
  destruct l as [|e l]; [reflexivity|].
  cbn [dts_from map time_deltas]. f_equal. apply dts_from_some.
Qed.

(** The [events] array of the record-mode dump lists every event in order
    with its coordinates and button, and its [dt]: 0 for the first event,
    then the difference of its timestamp to the previous event's. *)
Lemma print_json_from_events_event_fields (events : list event) (pretty : bool)
  (mode started_at : string) (duration : Z) :
  let o := print_json_from_events events pretty mode started_at duration in
  json_values "x" o = map (fun e => PInt (x e)) events
  /\ json_values "y" o = map (fun e => PInt (y e)) events
  /\ json_values "button" o = map (fun e => PInt (button e)) events
  /\ json_values "dt" o = map PFix (time_deltas (map t events)).
Proof.
  pose proof (dts_from_length None events) as Hlen.
  unfold print_json_from_events, json_values.
  destruct pretty; cbn [negb]; (split; [|split; [|split]]);
  first
    [ events_fields "x"%string (fun oe : out_event => [PInt (x (fst oe))])
    | events_fields "y"%string (fun oe : out_event => [PInt (y (fst oe))])
    | events_fields "button"%string (fun oe : out_event => [PInt (button (fst oe))])
    | events_fields "dt"%string (fun oe : out_event => [PFix (snd oe)]) ];
  rewrite concat_map_single; simpl; rewrite ?app_nil_r;
  first [ apply (map_combine_fst (fun e => PInt (x e))); symmetry; exact Hlen
        | apply (map_combine_fst (fun e => PInt (y e))); symmetry; exact Hlen
        | apply (map_combine_fst (fun e => PInt (button e))); symmetry; exact Hlen
        | rewrite (map_combine_snd PFix) by (symmetry; exact Hlen);
          rewrite dts_from_deltas; reflexivity ].
Qed.

(** ** What the streaming loop writes *)

Lemma limit_check_keeps (cfg : config) (st3 : mstate) (b : bool) :
  match limit_check cfg st3 b with
  | Continue st' | Break _ st' =>
      out st' = out st3 /\ outs st' = outs st3 /\ last_emit st' = last_emit st3
  end.
Proof.
  unfold limit_check.
  destruct (_ && _ && _); [repeat split|]. destruct (_ && _ && _); repeat split.
Qed.

Lemma stream_event_effects (cfg : config) (alloc : nat -> bool) (st : mstate) (cur : Z)
  (ev : event) :
  let dt := if last_emit st =? 0 then 0 else cur - last_emit st in
  match stream_event cfg alloc st cur ev with
  | Break StopOOM st' => (out_mode cfg = OUT_JSON \/ out_mode cfg = OUT_PRETTY)
      /\ last_emit st' = cur /\ out st' = out st /\ outs st' = outs st
  | Continue st' | Break _ st' =>
      last_emit st' = cur
      /\ out st' = out st ++ (match out_mode cfg with
                              | OUT_CSV => if is_press ev then print_csv ev else []
                              | OUT_JSONL => print_json_line ev dt
                              | _ => []
                              end)
      /\ outs st' = outs st ++ (match out_mode cfg with
                                | OUT_JSON | OUT_PRETTY => [(ev, dt)]
                                | _ => []
                                end)
  end.
Proof.
  intros dt. unfold stream_event.
  assert (HL : forall st3 b, last_emit st3 = cur -> forall o1 o2,
    out st3 = out st ++ o1 -> outs st3 = outs st ++ o2 ->
    match limit_check cfg st3 b with
    | Break StopOOM st' => (out_mode cfg = OUT_JSON \/ out_mode cfg = OUT_PRETTY)
        /\ last_emit st' = cur /\ out st' = out st /\ outs st' = outs st
    | Continue st' | Break _ st' =>
        last_emit st' = cur /\ out st' = out st ++ o1 /\ outs st' = outs st ++ o2
    end).
  { intros st3 b E1 o1 o2 E2 E3. pose proof (limit_check_keeps cfg st3 b) as K.
    unfold limit_check in K |- *.
    destruct (_ && _ && _); [destruct K as (K1 & K2 & K3); rewrite K1, K2, K3; auto|].
    destruct (_ && _ && _); destruct K as (K1 & K2 & K3); rewrite K1, K2, K3; auto. }
  destruct (out_mode cfg) eqn:Em.
  - apply HL; cbn; [reflexivity | reflexivity | symmetry; apply app_nil_r].
  - destruct (_ <? _)%nat; [destruct (alloc _)|];
      try (apply HL; cbn; [reflexivity | symmetry; apply app_nil_r | reflexivity]).
    cbn. auto.
  - destruct (_ <? _)%nat; [destruct (alloc _)|];
      try (apply HL; cbn; [reflexivity | symmetry; apply app_nil_r | reflexivity]).
    cbn. auto.
  - apply HL; cbn; [reflexivity | reflexivity | symmetry; apply app_nil_r].
Qed.

Lemma event_clocks_cons (stp : step) (p : list step) :
  event_clocks (stp :: p)
  = match res stp with REvent _ => [clk stp] | _ => [] end ++ event_clocks p.
Proof. reflexivity. Qed.

Lemma counted_cons_last (r : stop) (stp : step) (p : list step) :
  (r = StopOOM -> exists p0 stp', p = p0 ++ [stp']) ->
  counted r (stp :: p) = stp :: counted r p.
Proof.
  intros H. destruct r; try reflexivity.
  destruct (H eq_refl) as (p0 & stp' & ->). cbn [counted].
  rewrite app_comm_cons, !removelast_last. reflexivity.
Qed.

Lemma main_loop_stream_out (cfg : config) (maxev : nat) (alloc : nat -> bool)
  (rec_start : Z) (s : list step) :
  forall st r st' rest,
  record_mode cfg = false ->
  main_loop cfg maxev alloc rec_start st s = (r, st', rest) ->
  exists p, s = p ++ rest
    /\ (r = StopOOM -> exists p0 stp, p = p0 ++ [stp])
    /\ (out_mode cfg = OUT_CSV ->
        out st' = out st ++ List.concat (map print_csv (step_presses p)))
    /\ (out_mode cfg = OUT_JSONL ->
        out st' = out st ++ List.concat (map (fun ed => print_json_line (fst ed) (snd ed))
                              (combine (received p) (emit_dts (last_emit st) (event_clocks p)))))
    /\ (out_mode cfg = OUT_JSON \/ out_mode cfg = OUT_PRETTY ->
        out st' = out st
        /\ outs st' = outs st ++ combine (received (counted r p))
                                         (emit_dts (last_emit st) (event_clocks (counted r p)))).
Proof.
  induction s as [|[c rr] s IH]; intros st r st' rest Hrec H.
  - cbn in H. inversion H; subst. exists []. cbn. rewrite !app_nil_r.
    repeat split; auto; discriminate.
  - cbn [main_loop] in H. rewrite Hrec in H. cbn [andb res clk] in H.
    destruct rr as [|e| |].
    + destruct (IH st r st' rest Hrec H) as (p & -> & Ho & Hc & Hl & Hj).
      exists (mkStep c RTimeout :: p). split; [reflexivity|].
      split; [intros E; destruct (Ho E) as (p0 & stp & ->);
              exists (mkStep c RTimeout :: p0), stp; reflexivity|].
      rewrite (counted_cons_last r _ p Ho). exact (conj Hc (conj Hl Hj)).
    + pose proof (stream_event_effects cfg alloc st c e) as Hs. cbv zeta in Hs.
      assert (Hp : forall p, step_presses (mkStep c (REvent e) :: p)
                             = (if is_press e then [e] else []) ++ step_presses p)
        by (intros p; unfold step_presses; cbn [map res]; apply presses_event).
      destruct (stream_event cfg alloc st c e) as [st1|r1 st1].
      * destruct Hs as (He & Hout & Houts).
        destruct (IH st1 r st' rest Hrec H) as (p & -> & Ho & Hc & Hl & Hj).
        exists (mkStep c (REvent e) :: p). split; [reflexivity|].
        split; [intros E; destruct (Ho E) as (p0 & stp & ->);
                exists (mkStep c (REvent e) :: p0), stp; reflexivity|].
        rewrite (counted_cons_last r _ p Ho), !received_cons, !event_clocks_cons.
        cbn [res clk app emit_dts combine map List.concat].
        rewrite He in Hl, Hj.
        refine (conj _ (conj _ _)).
        -- intros E. rewrite Hc, Hout, E, Hp by exact E.
           destruct (is_press e); cbn [map List.concat app]; rewrite <- !app_assoc; reflexivity.
        -- intros E. rewrite Hl, Hout, E by exact E. rewrite <- app_assoc. reflexivity.
        -- intros E. destruct (Hj E) as [Hj1 Hj2]. split.
           ++ rewrite Hj1, Hout. destruct E as [E|E]; rewrite E; apply app_nil_r.
           ++ rewrite Hj2, Houts. destruct E as [E|E]; rewrite E; rewrite <- app_assoc; reflexivity.
      * injection H as -> -> ->.
        exists [mkStep c (REvent e)]. split; [reflexivity|].
        rewrite Hp, received_cons, event_clocks_cons. cbn [res clk app].
        destruct r;
          try (destruct Hs as (He & Hout & Houts);
               split; [intros Hx; discriminate Hx|]; cbn [counted];
               refine (conj _ (conj _ _));
               [ intros E; rewrite Hout, E; destruct (is_press e); cbn; rewrite ?app_nil_r; reflexivity
               | intros E; rewrite Hout, E;
                 cbn [received event_clocks flat_map res clk app emit_dts combine map List.concat];
                 rewrite app_nil_r; reflexivity
               | intros [E|E]; rewrite Hout, Houts, E; exact (conj (app_nil_r _) eq_refl) ]).
        destruct Hs as (Hm & He & Hout & Houts).
        split; [intros _; exists [], (mkStep c (REvent e)); reflexivity|].
        refine (conj _ (conj _ _)); intros E.
        -- destruct Hm as [Hm|Hm]; congruence.
        -- destruct Hm as [Hm|Hm]; congruence.
        -- split; [exact Hout|]. cbn. rewrite app_nil_r. exact Houts.
    + inversion H; subst. exists [mkStep c RTerm]. split; [reflexivity|].
      split; [discriminate|]. cbn. rewrite !app_nil_r.
      refine (conj (fun _ => eq_refl) (conj (fun _ => eq_refl) (fun _ => conj eq_refl eq_refl))).
    + inversion H; subst. exists [mkStep c REnter]. split; [reflexivity|].
      split; [discriminate|]. cbn. rewrite !app_nil_r.
      refine (conj (fun _ => eq_refl) (conj (fun _ => eq_refl) (fun _ => conj eq_refl eq_refl))).
Qed.

Lemma emit_dts_deltas (prev : Z) (cs : list Z) :
  prev <> 0 -> Forall (fun c => c <> 0) cs ->
  emit_dts prev cs = map (fun ab => snd ab - fst ab) (combine (prev :: cs) cs).
Proof.
  revert prev. induction cs as [|c cs IH]; intros prev Hp Hc; [reflexivity|].
  inversion Hc as [|? ? Hc0 Hcs]; subst.
  cbn [emit_dts combine map fst snd]. rewrite (proj2 (Z.eqb_neq prev 0) Hp).
  f_equal. apply IH; assumption.
Qed.

Lemma emit_dts_start (cs : list Z) :
  Forall (fun c => c <> 0) cs -> emit_dts 0 cs = time_deltas cs.
Proof.
  intros Hc. destruct cs as [|c cs]; [reflexivity|].
  inversion Hc; subst. cbn [emit_dts time_deltas Z.eqb]. f_equal.
  apply emit_dts_deltas; assumption.
Qed.

Lemma event_clocks_nonzero (p : list step) :
  Forall (fun stp => clk stp <> 0) p -> Forall (fun c => c <> 0) (event_clocks p).
Proof.
  induction 1 as [|stp p Hs Hp IH]; [constructor|].
  rewrite event_clocks_cons. destruct (res stp); cbn [app]; auto.
Qed.

Lemma Forall_removelast {A : Type} (P : A -> Prop) (l : list A) :
  Forall P l -> Forall P (removelast l).
Proof.
  induction 1 as [|a l Ha Hl IH]; [constructor|].
  destruct l as [|b l]; [constructor|]. cbn [removelast]. constructor; assumption.
Qed.

Lemma counted_nonzero (r : stop) (p : list step) :
  Forall (fun stp => clk stp <> 0) p -> Forall (fun stp => clk stp <> 0) (counted r p).
Proof. intros H. destruct r; cbn [counted]; auto using Forall_removelast. Qed.

Lemma received_clocks_length (p : list step) :
  List.length (received p) = List.length (event_clocks p).
Proof.
  induction p as [|stp p IH]; [reflexivity|].
  rewrite received_cons, event_clocks_cons. destruct (res stp); cbn; auto.
Qed.

Lemma time_deltas_length (cs : list Z) : List.length (time_deltas cs) = List.length cs.
Proof.
  destruct cs as [|c cs]; [reflexivity|]. cbn [time_deltas List.length].
  rewrite length_map, length_combine. cbn [List.length]. f_equal. lia.
Qed.

Lemma main_loop_stream_start (cfg : config) (maxev : nat) (alloc : nat -> bool)
  (rec_start : Z) (s : list step) (r : stop) (st' : mstate) (rest : list step) :
  record_mode cfg = false ->
  Forall (fun stp => clk stp <> 0) s ->
  main_loop cfg maxev alloc rec_start init_state s = (r, st', rest) ->
  exists p, s = p ++ rest
    /\ (out_mode cfg = OUT_CSV -> out st' = List.concat (map print_csv (step_presses p)))
    /\ (out_mode cfg = OUT_JSONL ->
        out st' = List.concat (map (fun ed => print_json_line (fst ed) (snd ed))
                                   (combine (received p) (time_deltas (event_clocks p)))))
    /\ (out_mode cfg = OUT_JSON \/ out_mode cfg = OUT_PRETTY ->
        out st' = []
        /\ outs st' = combine (received (counted r p)) (time_deltas (event_clocks (counted r p)))).
Proof.
  intros Hrec Hclk H.
  destruct (main_loop_stream_out cfg maxev alloc rec_start s init_state r st' rest Hrec H)
    as (p & Hs & _ & Hc & Hl & Hj).
  cbn [out outs last_emit init_state app] in Hc, Hl, Hj.
  assert (Hp : Forall (fun stp => clk stp <> 0) p)
    by (rewrite Hs in Hclk; apply Forall_app in Hclk; apply Hclk).
  exists p. split; [exact Hs|]. split; [exact Hc|]. split.
  - intros E. rewrite (Hl E), emit_dts_start by (apply event_clocks_nonzero; exact Hp).
    reflexivity.
  - intros E. destruct (Hj E) as [Hj1 Hj2]. split; [exact Hj1|].
    rewrite Hj2, emit_dts_start
      by (apply event_clocks_nonzero, counted_nonzero; exact Hp).
    reflexivity.
Qed.

Lemma fold_snd_combine {A : Type} (l1 : list A) (l2 : list Z) (acc : Z) :
  List.length l1 = List.length l2 ->
  fold_left (fun acc o => acc + snd o) (combine l1 l2) acc = fold_left Z.add l2 acc.
Proof.
  revert l2 acc. induction l1 as [|a l1 IH]; intros [|b l2] acc H; try discriminate;
    [reflexivity|]. cbn. apply IH. cbn in H. lia.
Qed.

Lemma last_default (c : Z) (l : list Z) (d1 d2 : Z) : last (c :: l) d1 = last (c :: l) d2.
Proof.
  revert c. induction l as [|b l IH]; intros c; [reflexivity|].
  change (last (b :: l) d1 = last (b :: l) d2). apply IH.
Qed.

Lemma sum_clock_differences (a : Z) (l : list Z) (acc : Z) :
  fold_left Z.add (map (fun ab => snd ab - fst ab) (combine (a :: l) l)) acc
  = acc + (last (a :: l) a - a).
Proof.
  revert a acc. induction l as [|b l IH]; intros a acc; [cbn; lia|].
  change (fold_left Z.add (map (fun ab : Z * Z => snd ab - fst ab) (combine (b :: l) l))
            (acc + (b - a)) = acc + (last (b :: l) a - a)).
  rewrite IH, (last_default b l a b). lia.
Qed.

Lemma sum_time_deltas (c0 : Z) (l : list Z) :
  fold_left Z.add (time_deltas (c0 :: l)) 0 = last (c0 :: l) c0 - c0.
Proof.
  unfold time_deltas.
  change (fold_left Z.add (0 :: ?L) 0) with (fold_left Z.add L (0 + 0)).
  rewrite sum_clock_differences. lia.
Qed.

(** Outside record mode, starting from the initial state and with clock
    readings that are never 0 (0 is the "unset" value of [last_emit_time]):
    in CSV mode the loop writes one [X,Y,button] line per consumed Press, in
    arrival order; in JSONL mode it writes one line per consumed event, whose
    [dt] is 0 for the first event and the difference of the clock readings
    of consecutive events after that; in JSON and pretty mode it writes
    nothing and stores the counted events with those same [dt] values. *)
Theorem stream_output_in_arrival_order (cfg : config) (maxev : nat) (alloc : nat -> bool)
  (rec_start : Z) (s : list step) (r : stop) (st' : mstate) (rest : list step) :
  record_mode cfg = false ->
  Forall (fun stp => clk stp <> 0) s ->
  main_loop cfg maxev alloc rec_start init_state s = (r, st', rest) ->
  exists p, s = p ++ rest
    /\ (out_mode cfg = OUT_CSV -> out st' = List.concat (map print_csv (step_presses p)))
    /\ (out_mode cfg = OUT_JSONL ->
        out st' = List.concat (map (fun ed => print_json_line (fst ed) (snd ed))
                                   (combine (received p) (time_deltas (event_clocks p)))))
    /\ (out_mode cfg = OUT_JSON \/ out_mode cfg = OUT_PRETTY ->
        out st' = []
        /\ outs st' = combine (received (counted r p)) (time_deltas (event_clocks (counted r p)))).
Proof. apply main_loop_stream_start. Qed.

Lemma stream_output_in_arrival_order_witness :
  record_mode (ex_stream_cfg OUT_JSONL) = false
  /\ Forall (fun stp => clk stp <> 0) ex_stream_steps
  /\ let '(r, st', rest) :=
       main_loop (ex_stream_cfg OUT_JSONL) 0 (fun _ => true) 0 init_state ex_stream_steps in
     exists p, ex_stream_steps = p ++ rest
      /\ (out_mode (ex_stream_cfg OUT_JSONL) = OUT_CSV ->
          out st' = List.concat (map print_csv (step_presses p)))
      /\ (out_mode (ex_stream_cfg OUT_JSONL) = OUT_JSONL ->
          out st' = List.concat (map (fun ed => print_json_line (fst ed) (snd ed))
                                     (combine (received p) (time_deltas (event_clocks p)))))
      /\ (out_mode (ex_stream_cfg OUT_JSONL) = OUT_JSON
          \/ out_mode (ex_stream_cfg OUT_JSONL) = OUT_PRETTY ->
          out st' = []
          /\ outs st' = combine (received (counted r p))
                                (time_deltas (event_clocks (counted r p)))).
Proof.
  split; [reflexivity|]. split; [repeat constructor; cbn; lia|].
  destruct (main_loop (ex_stream_cfg OUT_JSONL) 0 (fun _ => true) 0 init_state ex_stream_steps)
    as [[r st'] rest] eqn:E.
  exact (stream_output_in_arrival_order (ex_stream_cfg OUT_JSONL) 0%nat (fun _ => true) 0
           ex_stream_steps r st' rest eq_refl
           ltac:(repeat constructor; cbn; lia) E).
Defined.

(** Outside record mode in JSON and pretty mode, with clock readings that
    are never 0: without [-o] the final dump on [stdout] lists the stored
    events with their [dt] values, and its [duration] (the sum of the stored
    [dt] values when more than one event is stored, else 0) is the
    difference between the clock readings of the last and the first stored
    event; with [-o] the dump is written to the [FILE*] [restore_terminal()]
    has closed (undefined behaviour, [None]). *)
Theorem stream_json_duration (cfg : config) (to_file : bool) (alloc : nat -> bool)
  (rec_start : Z) (started_at : string) (s : list step) (r : stop) (st : mstate)
  (o : option (list piece)) :
  record_mode cfg = false ->
  (out_mode cfg = OUT_JSON \/ out_mode cfg = OUT_PRETTY) ->
  Forall (fun stp => clk stp <> 0) s ->
  main_run cfg to_file alloc rec_start started_at s = (r, st, o) ->
  exists p rest, s = p ++ rest
    /\ outs st = combine (received (counted r p)) (time_deltas (event_clocks (counted r p)))
    /\ o = if to_file then None
           else Some (print_json_history (outs st) (is_pretty (out_mode cfg)) "stream"
                        started_at
                        (match event_clocks (counted r p) with
                         | c0 :: c1 :: l => last (c0 :: c1 :: l) c0 - c0
                         | _ => 0
                         end)).
Proof.
  intros Hrec Hm Hclk H. unfold main_run in H. rewrite Hrec in H. cbn [andb] in H.
  destruct (main_loop cfg (max_events_of (record_ns cfg)) alloc rec_start init_state s)
    as [[r' st'] rest] eqn:E.
  assert (Hu : dump_uses_out_fp cfg st' = true).
  { unfold dump_uses_out_fp. rewrite Hrec. destruct Hm as [Hm|Hm]; rewrite Hm; reflexivity. }
  rewrite Hu in H.
  destruct (main_loop_stream_start cfg _ alloc rec_start s r' st' rest Hrec Hclk E)
    as (p & Hs & _ & _ & Hj).
  destruct (Hj Hm) as [Hout Houts].
  destruct to_file; cbn [andb] in H; injection H as <- <- <-.
  { exists p, rest. split; [exact Hs|]. split; [exact Houts|]. reflexivity. }
  exists p, rest. split; [exact Hs|]. split; [exact Houts|].
  rewrite Hout. cbn [app]. unfold main_finish. rewrite Hrec.
  assert (Hlen : List.length (outs st') = List.length (event_clocks (counted r' p))).
  { rewrite Houts. unfold out_event.
    rewrite length_combine, received_clocks_length, time_deltas_length. apply Nat.min_id. }
  assert (Hsum : fold_left (fun acc o => acc + snd o) (outs st') 0
                 = fold_left Z.add (time_deltas (event_clocks (counted r' p))) 0).
  { rewrite Houts. apply fold_snd_combine.
    rewrite time_deltas_length. apply received_clocks_length. }
  rewrite Hlen, Hsum.
  destruct Hm as [Hm|Hm]; rewrite Hm; cbv beta iota zeta; f_equal; f_equal;
    (destruct (event_clocks (counted r' p)) as [|c0 [|c1 l]];
     [reflexivity | reflexivity | apply sum_time_deltas]).
Qed.

Lemma stream_json_duration_witness :
  record_mode (ex_stream_cfg OUT_JSON) = false
  /\ (out_mode (ex_stream_cfg OUT_JSON) = OUT_JSON \/ out_mode (ex_stream_cfg OUT_JSON) = OUT_PRETTY)
  /\ Forall (fun stp => clk stp <> 0) ex_stream_steps
  /\ let '(r, st, o) :=
       main_run (ex_stream_cfg OUT_JSON) false (fun _ => true) 0 "2026-01-01T00:00:00Z"
         ex_stream_steps in
     exists p rest, ex_stream_steps = p ++ rest
      /\ outs st = combine (received (counted r p)) (time_deltas (event_clocks (counted r p)))
      /\ o = if false then None
             else Some (print_json_history (outs st) (is_pretty (out_mode (ex_stream_cfg OUT_JSON)))
                          "stream" "2026-01-01T00:00:00Z"
                          (match event_clocks (counted r p) with
                           | c0 :: c1 :: l => last (c0 :: c1 :: l) c0 - c0
                           | _ => 0
                           end)).
Proof.
  split; [reflexivity|]. split; [left; reflexivity|]. split; [repeat constructor; cbn; lia|].
  destruct (main_run (ex_stream_cfg OUT_JSON) false (fun _ => true) 0 "2026-01-01T00:00:00Z"
              ex_stream_steps) as [[r st] o] eqn:E.
  exact (stream_json_duration (ex_stream_cfg OUT_JSON) false (fun _ => true) 0
           "2026-01-01T00:00:00Z" ex_stream_steps r st o eq_refl (or_introl eq_refl)
           ltac:(repeat constructor; cbn; lia) E).
Defined.

(** ** What the decoder accepts and skips *)

Lemma parse_sgr_wrapped (buf : list ascii) (cb cx cy : Z) (tc : ascii) :
  parse_sgr buf = Some (cb, cx, cy, tc) ->
  INT_MIN <= cb <= INT_MAX /\ INT_MIN <= cx <= INT_MAX /\ INT_MIN <= cy <= INT_MAX.
Proof.
  unfold parse_sgr. intros H.
  destruct (_ || _ || _); [discriminate|].
  destruct (split_semi _) as [[p r1]|]; [|discriminate].
  destruct (split_semi r1) as [[s1 s2]|]; [|discriminate].
  destruct (strtol10 p); [|discriminate]. destruct (negb _); [discriminate|].
  destruct (strtol10 s1); [|discriminate]. destruct (negb _); [discriminate|].
  destruct (strtol10 s2); [|discriminate]. destruct (negb _); [discriminate|].
  injection H as <- <- <- _. auto using wrap32_range.
Qed.

Lemma scan_event_shape (to : option Z) (now : Z) (s : list src) :
  forall st e r, scan to now st s = (REvent e, r) ->
  t e = now
  /\ INT_MIN <= x e <= INT_MAX /\ INT_MIN <= y e <= INT_MAX
  /\ INT_MIN <= button e <= INT_MAX
  /\ (type e = EVT_PRESS -> button e < 32)
  /\ (type e = EVT_MOTION -> 32 <= button e)
  /\ exists p, s = p ++ r.
Proof.
  induction s as [|a s IH]; intros st e r H; [discriminate|].
  assert (Hs : forall st', scan to now st' s = (REvent e, r) ->
            t e = now
            /\ INT_MIN <= x e <= INT_MAX /\ INT_MIN <= y e <= INT_MAX
            /\ INT_MIN <= button e <= INT_MAX
            /\ (type e = EVT_PRESS -> button e < 32)
            /\ (type e = EVT_MOTION -> 32 <= button e)
            /\ exists p, a :: s = p ++ r).
  { intros st' H'. destruct (IH st' e r H') as (H1 & H2 & H3 & H4 & H5 & H6 & p & Hp).
    refine (conj H1 (conj H2 (conj H3 (conj H4 (conj H5 (conj H6 _)))))).
    exists (a :: p). rewrite Hp. reflexivity. }
  destruct a as [c| |]; cbn [scan] in H.
  - destruct st as [| | |buf].
    + destruct (is_crlf c); [discriminate|]. destruct (Ascii.eqb c ESC); eauto.
    + destruct (Ascii.eqb c "["%char); eauto.
    + destruct (Ascii.eqb c "<"%char); eauto.
    + destruct (_ || _); [|eauto].
      destruct (parse_sgr (buf ++ [c])) as [[[[cb cx] cy] tc]|] eqn:E; [|eauto].
      injection H as <- <-. unfold sgr_event. cbn [t x y button type].
      destruct (parse_sgr_wrapped _ _ _ _ _ E) as (Hb & Hx & Hy).
      split; [reflexivity|]. split; [exact Hx|]. split; [exact Hy|]. split; [exact Hb|].
      split; [|split; [|exists [Byte c]; reflexivity]];
        destruct (Ascii.eqb tc "M"%char); try discriminate;
        destruct (Z.ltb_spec cb 32); try discriminate; intros _; lia.
  - destruct st; [destruct to|..]; [discriminate|eauto..].
  - discriminate.
Qed.

Lemma scan_blocking_no_timeout (now : Z) (s : list src) :
  forall st, fst (scan None now st s) <> RTimeout.
Proof.
  induction s as [|a s IH]; intros st; [discriminate|].
  destruct a as [c| |]; cbn [scan].
  - destruct st as [| | |buf].
    + destruct (is_crlf c); [discriminate|]. destruct (Ascii.eqb c ESC); apply IH.
    + destruct (Ascii.eqb c "["%char); apply IH.
    + destruct (Ascii.eqb c "<"%char); apply IH.
    + destruct (_ || _); [|apply IH].
      destruct (parse_sgr (buf ++ [c])) as [[[[cb cx] cy] tc]|]; [discriminate|apply IH].
  - destruct st; apply IH.
  - discriminate.
Qed.

Lemma scan_noise (to : option Z) (now : Z) (l : list ascii) (s : list src) :
  forallb noise_char l = true -> scan to now DTop (bytes l ++ s) = scan to now DTop s.
Proof.
  induction l as [|c l IH]; intros H; [reflexivity|].
  cbn [forallb] in H. apply andb_prop in H as [Hc Hl].
  unfold noise_char in Hc. apply andb_prop in Hc as [H1 H2].
  apply negb_true_iff in H1, H2.
  cbn [bytes map app scan]. rewrite H1, H2. apply IH, Hl.
Qed.

Lemma digits_noise (d : list ascii) : all_digits d = true -> forallb noise_char d = true.
Proof.
  induction d as [|c d IH]; intros H; [reflexivity|].
  cbn [all_digits forallb] in H |- *. apply andb_prop in H as [Hc Hd].
  rewrite IH by exact Hd. rewrite andb_true_r.
  unfold is_digit in Hc. apply andb_prop in Hc as [H1 H2].
  apply Nat.leb_le in H1, H2.
  unfold noise_char, is_crlf.
  destruct (Ascii.eqb_spec c CR) as [->|]; [vm_compute in H1; lia|].
  destruct (Ascii.eqb_spec c LF) as [->|]; [vm_compute in H1; lia|].
  destruct (Ascii.eqb_spec c ESC) as [->|]; [vm_compute in H1; lia|].
  reflexivity.
Qed.

Lemma field_chars_not_term (f : list ascii) :
  forallb field_char f = true -> forallb (fun c => negb (is_term c)) f = true.
Proof.
  induction f as [|c f IH]; intros H; [reflexivity|].
  cbn [forallb] in H |- *. apply andb_prop in H as [Hc Hf].
  unfold field_char in Hc. apply andb_prop in Hc as [Hc _]. apply andb_prop in Hc as [Hc _].
  rewrite Hc, IH; auto.
Qed.

Lemma cstr_field (f r : list ascii) :
  forallb field_char f = true -> cstr (f ++ r) = f ++ cstr r.
Proof.
  induction f as [|c f IH]; intros H; [reflexivity|].
  cbn [forallb] in H. apply andb_prop in H as [Hc Hf].
  unfold field_char in Hc. apply andb_prop in Hc as [_ Hn]. apply negb_true_iff in Hn.
  cbn [app cstr]. rewrite Hn, IH; auto.
Qed.

Lemma split_semi_field (f r : list ascii) :
  forallb field_char f = true -> split_semi (f ++ ";"%char :: r) = Some (f, r).
Proof.
  induction f as [|c f IH]; intros H; [reflexivity|].
  cbn [forallb] in H. apply andb_prop in H as [Hc Hf].
  unfold field_char in Hc. apply andb_prop in Hc as [Hc _].
  apply andb_prop in Hc as [_ Hs]. apply negb_true_iff in Hs.
  cbn [app split_semi]. rewrite Hs, IH; auto.
Qed.

Lemma sgr_body_fields_not_term (f1 f2 f3 : list ascii) :
  forallb field_char f1 = true -> forallb field_char f2 = true ->
  forallb field_char f3 = true ->
  forallb (fun c => negb (is_term c)) (sgr_body f1 f2 f3) = true.
Proof.
  intros H1 H2 H3. unfold sgr_body.
  rewrite forallb_app. cbn [forallb]. rewrite forallb_app. cbn [forallb].
  rewrite !field_chars_not_term by assumption. reflexivity.
Qed.

(** [parse_sgr] on [< f1 ; f2 ; f3 c] for fields without [;], NUL or a
    terminator: each field goes through strtol, whatever [c] is. *)
Lemma parse_sgr_fields (f1 f2 f3 : list ascii) (c : ascii) :
  forallb field_char f1 = true -> forallb field_char f2 = true ->
  forallb field_char f3 = true ->
  (List.length (sgr_body f1 f2 f3) <= 125)%nat ->
  parse_sgr ("<"%char :: sgr_body f1 f2 f3 ++ [c])
  = match strtol10 f1, strtol10 f2, strtol10 f3 with
    | Some v1, Some v2, Some v3 =>
        if in_long v1 && in_long v2 && in_long v3
        then Some (wrap32 v1, wrap32 v2, wrap32 v3, c) else None
    | _, _, _ => None
    end.
Proof.
  intros H1 H2 H3 Hlen. unfold parse_sgr.
  set (body := sgr_body f1 f2 f3) in *.
  assert (Hl2 : (2 <= List.length body)%nat)
    by (unfold body, sgr_body; rewrite length_app; cbn; rewrite length_app; cbn; lia).
  replace ((List.length ("<"%char :: body ++ [c]) <? 4)%nat) with false
    by (symmetry; apply Nat.ltb_ge; cbn; rewrite length_app; cbn; lia).
  replace ((SGR_BUF <=? List.length ("<"%char :: body ++ [c]))%nat) with false
    by (symmetry; apply Nat.leb_gt; cbn; rewrite length_app; cbn; unfold SGR_BUF; lia).
  cbn [hd tl orb negb].
  change (Ascii.eqb "<" "<") with true. cbn [negb orb].
  replace (List.length ("<"%char :: body ++ [c]) - 2)%nat with (List.length body)
    by (cbn; rewrite length_app; cbn; lia).
  rewrite firstn_app, firstn_all, Nat.sub_diag, firstn_O, app_nil_r.
  assert (Hc : cstr body = body).
  { unfold body, sgr_body. rewrite cstr_field by auto. cbn [cstr].
    change (Ascii.eqb ";" NUL) with false. cbn [app].
    rewrite cstr_field by auto. cbn [cstr].
    change (Ascii.eqb ";" NUL) with false. cbn [app].
    rewrite <- (app_nil_r f3) at 1. rewrite cstr_field by auto.
    rewrite !app_nil_r. reflexivity. }
  assert (Hlast : last ("<"%char :: body ++ [c]) NUL = c)
    by (rewrite app_comm_cons; apply last_snoc).
  rewrite Hc, Hlast. unfold body, sgr_body.
  rewrite split_semi_field by auto. rewrite split_semi_field by auto.
  destruct (strtol10 f1) as [v1|]; [|reflexivity].
  destruct (in_long v1); cbn [negb];
    (destruct (strtol10 f2) as [v2|]; [|reflexivity]);
    (destruct (in_long v2); cbn [negb];
     (destruct (strtol10 f3) as [v3|]; [|reflexivity]);
     destruct (in_long v3); reflexivity).
Qed.

(** Every event [read_sgr_event_timeout] returns carries the clock reading
    of the call, has [x], [y] and [button] in the [int] range, is a Press
    only with a button code below 32 and a Motion only with one of at least
    32; the unread input it leaves is a suffix of its input. *)
Theorem decoded_event_invariant (to : option Z) (now : Z) (s : list src) (e : event)
  (r : list src) :
  read_sgr_event_timeout to now s = (REvent e, r) ->
  t e = now
  /\ INT_MIN <= x e <= INT_MAX /\ INT_MIN <= y e <= INT_MAX
  /\ INT_MIN <= button e <= INT_MAX
  /\ (type e = EVT_PRESS -> button e < 32)
  /\ (type e = EVT_MOTION -> 32 <= button e)
  /\ exists p, s = p ++ r.
Proof. apply scan_event_shape. Qed.

Lemma decoded_event_invariant_witness :
  read_sgr_event_timeout None 5
    (bytes (sgr_seq (chars "40") (chars "7") (chars "9") "M"%char))
  = (REvent (sgr_event 5 40 7 9 "M"%char), [])
  /\ (t (sgr_event 5 40 7 9 "M"%char) = 5
      /\ INT_MIN <= x (sgr_event 5 40 7 9 "M"%char) <= INT_MAX
      /\ INT_MIN <= y (sgr_event 5 40 7 9 "M"%char) <= INT_MAX
      /\ INT_MIN <= button (sgr_event 5 40 7 9 "M"%char) <= INT_MAX
      /\ (type (sgr_event 5 40 7 9 "M"%char) = EVT_PRESS
          -> button (sgr_event 5 40 7 9 "M"%char) < 32)
      /\ (type (sgr_event 5 40 7 9 "M"%char) = EVT_MOTION
          -> 32 <= button (sgr_event 5 40 7 9 "M"%char))
      /\ exists p, bytes (sgr_seq (chars "40") (chars "7") (chars "9") "M"%char) = p ++ []).
Proof.
  split; [vm_compute; reflexivity|].
  apply (decoded_event_invariant None 5
           (bytes (sgr_seq (chars "40") (chars "7") (chars "9") "M"%char))
           (sgr_event 5 40 7 9 "M"%char) []).
  vm_compute. reflexivity.
Defined.

(** With a negative timeout (the [select] blocks), as outside record mode,
    [read_sgr_event_timeout] never returns 0 (timeout). *)
Theorem blocking_read_never_times_out (now : Z) (s : list src) :
  fst (read_sgr_event_timeout None now s) <> RTimeout.
Proof. apply scan_blocking_no_timeout. Qed.

(** Between sequences, every byte other than CR, LF and ESC is read and
    dropped: the call returns what it would return on the input after
    those bytes. *)
Theorem noise_bytes_skipped (to : option Z) (now : Z) (l : list ascii) (s : list src) :
  forallb noise_char l = true ->
  read_sgr_event_timeout to now (bytes l ++ s) = read_sgr_event_timeout to now s.
Proof. apply scan_noise. Qed.

Lemma noise_bytes_skipped_witness :
  forallb noise_char (chars "a1;M[<") = true
  /\ read_sgr_event_timeout None 0 (bytes (chars "a1;M[<") ++ [Byte CR])
     = read_sgr_event_timeout None 0 [Byte CR].
Proof.
  split; [vm_compute; reflexivity|].
  apply noise_bytes_skipped. vm_compute. reflexivity.
Defined.

(** An ESC right before a mouse report makes the decoder lose the report:
    the report's ESC is read as the byte after the first ESC and dropped,
    and the rest of the report ([[ < Cb ; Cx ; Cy M]) is skipped byte by
    byte. *)
Theorem stray_esc_drops_next_report (to : option Z) (now : Z)
  (dcb dcx dcy : list ascii) (term : ascii) (rest : list src) :
  all_digits dcb = true -> all_digits dcx = true -> all_digits dcy = true ->
  (term = "M"%char \/ term = "m"%char) ->
  read_sgr_event_timeout to now (Byte ESC :: bytes (sgr_seq dcb dcx dcy term) ++ rest)
  = read_sgr_event_timeout to now rest.
Proof.
  intros Hb Hx Hy Ht. unfold read_sgr_event_timeout, sgr_seq.
  cbn [bytes map app scan].
  change (is_crlf ESC) with false. change (Ascii.eqb ESC ESC) with true.
  change (Ascii.eqb ESC "[") with false. cbn [negb].
  change (Byte "["%char :: Byte "<"%char :: map Byte (sgr_body dcb dcx dcy ++ [term]) ++ rest)
    with (bytes ("["%char :: "<"%char :: sgr_body dcb dcx dcy ++ [term]) ++ rest).
  apply scan_noise.
  cbn [forallb]. unfold sgr_body. rewrite !forallb_app. cbn [forallb].
  rewrite forallb_app. cbn [forallb].
  rewrite !digits_noise by assumption.
  destruct Ht as [-> | ->]; reflexivity.
Qed.

Lemma stray_esc_drops_next_report_witness :
  all_digits (chars "0") = true /\ all_digits (chars "10") = true
  /\ all_digits (chars "20") = true /\ ("M"%char = "M"%char \/ "M"%char = "m"%char)
  /\ read_sgr_event_timeout None 0
       (Byte ESC :: bytes (sgr_seq (chars "0") (chars "10") (chars "20") "M"%char)
        ++ [Byte LF])
     = read_sgr_event_timeout None 0 [Byte LF].
Proof.
  split; [reflexivity|]. split; [reflexivity|]. split; [reflexivity|].
  split; [left; reflexivity|].
  apply stray_esc_drops_next_report; [reflexivity..|left; reflexivity].
Defined.

(** Each field of [ESC [ < f1 ; f2 ; f3 M|m] is converted like
    [strtol(.., 10)]: leading blanks and a sign are accepted, bytes after the
    digits are ignored, and a value in the [long] range is then truncated to
    [int] (here [wrap32]). *)
Theorem decode_fields_like_strtol (to : option Z) (now : Z) (f1 f2 f3 : list ascii)
  (term : ascii) (rest : list src) (v1 v2 v3 : Z) :
  forallb field_char f1 = true -> forallb field_char f2 = true ->
  forallb field_char f3 = true ->
  (List.length (sgr_body f1 f2 f3) <= 125)%nat ->
  strtol10 f1 = Some v1 -> strtol10 f2 = Some v2 -> strtol10 f3 = Some v3 ->
  in_long v1 = true -> in_long v2 = true -> in_long v3 = true ->
  is_term term = true ->
  read_sgr_event_timeout to now (bytes (sgr_seq f1 f2 f3 term) ++ rest)
  = (REvent (sgr_event now (wrap32 v1) (wrap32 v2) (wrap32 v3) term), rest).
Proof.
  intros H1 H2 H3 Hlen S1 S2 S3 L1 L2 L3 Ht. unfold sgr_seq.
  rewrite decode_seq_any by (auto using sgr_body_fields_not_term).
  rewrite parse_sgr_fields by assumption.
  rewrite S1, S2, S3, L1, L2, L3. reflexivity.
Qed.

Lemma decode_fields_like_strtol_witness :
  let f1 := chars " +5" in let f2 := chars "-3x" in let f3 := chars "4294967297" in
  read_sgr_event_timeout None 0 (bytes (sgr_seq f1 f2 f3 "M"%char))
  = (REvent (sgr_event 0 (wrap32 5) (wrap32 (-3)) (wrap32 4294967297) "M"%char), [])
  /\ sgr_event 0 (wrap32 5) (wrap32 (-3)) (wrap32 4294967297) "M"%char
     = mkEvent (-3) 1 5 EVT_PRESS 0.
Proof.
  intros f1 f2 f3. split; [|vm_compute; reflexivity].
  apply (decode_fields_like_strtol None 0 f1 f2 f3 "M"%char [] 5 (-3) 4294967297);
    (vm_compute; reflexivity) || (apply Nat.leb_le; vm_compute; reflexivity).
Defined.

(** A report whose body reaches the end of the 128-byte buffer without an
    [M] or [m] is parsed anyway: its last byte is taken as the terminator,
    so the event is a Release, whatever its button code. *)
Theorem full_buffer_decoded_as_release (to : option Z) (now : Z) (f1 f2 f3 : list ascii)
  (c : ascii) (rest : list src) (v1 v2 v3 : Z) :
  forallb field_char f1 = true -> forallb field_char f2 = true ->
  forallb field_char f3 = true ->
  List.length (sgr_body f1 f2 f3) = 125%nat ->
  strtol10 f1 = Some v1 -> strtol10 f2 = Some v2 -> strtol10 f3 = Some v3 ->
  in_long v1 = true -> in_long v2 = true -> in_long v3 = true ->
  is_term c = false ->
  read_sgr_event_timeout to now
    (bytes (ESC :: "["%char :: "<"%char :: sgr_body f1 f2 f3 ++ [c]) ++ rest)
  = (REvent (mkEvent (wrap32 v2) (wrap32 v3) (wrap32 v1) EVT_RELEASE now), rest).
Proof.
  intros H1 H2 H3 Hlen S1 S2 S3 L1 L2 L3 Ht.
  rewrite decode_seq_any by (auto using sgr_body_fields_not_term; lia).
  rewrite parse_sgr_fields by (auto; lia).
  rewrite S1, S2, S3, L1, L2, L3. cbn [andb]. unfold sgr_event.
  assert (HM : Ascii.eqb c "M"%char = false).
  { unfold is_term in Ht. apply orb_false_iff in Ht. apply Ht. }
  rewrite HM. reflexivity.
Qed.

Lemma full_buffer_decoded_as_release_witness :
  let f3 := "1"%char :: repeat "x"%char 120 in
  read_sgr_event_timeout None 0
    (bytes (ESC :: "["%char :: "<"%char :: sgr_body (chars "0") (chars "1") f3
            ++ ["x"%char]))
  = (REvent (mkEvent (wrap32 1) (wrap32 1) (wrap32 0) EVT_RELEASE 0), []).
Proof.
  intros f3.
  apply (full_buffer_decoded_as_release None 0 (chars "0") (chars "1") f3 "x"%char [] 0 1 1);
    vm_compute; reflexivity.
Defined.

(** ** Option arguments *)

Lemma strtol10_end_value (s : list ascii) : option_map fst (strtol10_end s) = strtol10 s.
Proof.
  unfold strtol10_end, strtol10.
  destruct (match skip_spaces s with
            | [] => (1, skip_spaces s)
            | c :: r => if Ascii.eqb c "+"%char then (1, r)
                        else if Ascii.eqb c "-"%char then (-1, r) else (1, skip_spaces s)
            end) as [sign s2].
  destruct (take_digits s2); reflexivity.
Qed.

Lemma skip_spaces_split (s : list ascii) :
  exists sp, s = sp ++ skip_spaces s /\ forallb is_space sp = true.
Proof.
  induction s as [|c s IH]; [exists []; auto|].
  cbn [skip_spaces]. destruct (is_space c) eqn:Hc.
  - destruct IH as (sp & Hs & Hsp). exists (c :: sp).
    cbn [app forallb]. rewrite Hc, <- Hs. auto.
  - exists []. auto.
Qed.

Lemma skip_spaces_app (sp r : list ascii) :
  forallb is_space sp = true ->
  (match r with c :: _ => is_space c = false | [] => True end) ->
  skip_spaces (sp ++ r) = r.
Proof.
  intros Hsp Hr. induction sp as [|c sp IH].
  - destruct r as [|c r]; [reflexivity|]. cbn. rewrite Hr. reflexivity.
  - cbn [forallb] in Hsp. apply andb_prop in Hsp as [Hc Hsp].
    cbn [app skip_spaces]. rewrite Hc. auto.
Qed.

Lemma take_digits_split (s : list ascii) :
  s = take_digits s ++ skipn (List.length (take_digits s)) s
  /\ all_digits (take_digits s) = true.
Proof.
  induction s as [|c s IH]; [auto|].
  cbn [take_digits]. destruct (is_digit c) eqn:Hc.
  - destruct IH as [H1 H2]. cbn [List.length skipn app all_digits forallb].
    rewrite Hc. split; [f_equal; exact H1 | exact H2].
  - auto.
Qed.

Lemma take_digits_skipn_nil (d : list ascii) :
  all_digits d = true -> take_digits d = d /\ skipn (List.length d) d = [].
Proof.
  intros H. split.
  - rewrite <- (app_nil_r d) at 1. rewrite take_digits_all by exact H. apply app_nil_r.
  - apply skipn_all.
Qed.

(** [parse_positive_int] accepts exactly the strings made of blanks, an
    optional [+] and one or more decimal digits whose value is between 1
    and [LONG_MAX]: a [-] sign, a zero value, trailing characters, an empty
    or digitless string and a value beyond [long] are all rejected. *)
Theorem parse_positive_int_accepts (s : list ascii) (v : Z) :
  parse_positive_int s = Some v <->
  exists sp sg d, s = sp ++ sg ++ d
    /\ forallb is_space sp = true /\ (sg = [] \/ sg = ["+"%char])
    /\ d <> [] /\ all_digits d = true
    /\ v = digits_value d /\ 0 < v <= LONG_MAX.
Proof.
  split.
  - unfold parse_positive_int, strtol10_end.
    destruct (skip_spaces_split s) as (sp & Hs & Hsp).
    destruct (skip_spaces s) as [|c r] eqn:E1; [cbn; discriminate|].
    destruct (Ascii.eqb_spec c "+"%char) as [->|Hp].
    + pose proof (take_digits_split r) as [Hr Hd].
      destruct (take_digits r) as [|c0 d0] eqn:Et; [discriminate|].
      set (d := c0 :: d0) in *.
      destruct (skipn (List.length d) r) as [|? ?]; cbn [negb orb];
        [|rewrite orb_true_r; discriminate].
      rewrite app_nil_r in Hr. rewrite Z.mul_1_l.
      destruct (in_long (digits_value d)) eqn:Hl; cbn [negb orb]; [|discriminate].
      destruct (Z.leb_spec (digits_value d) 0); [discriminate|].
      intros Hq. injection Hq as <-.
      exists sp, ["+"%char], d. unfold in_long, LONG_MIN in Hl.
      apply andb_prop in Hl as [_ Hl]. apply Z.leb_le in Hl.
      repeat split; auto; try lia.
      * rewrite Hs, Hr. reflexivity.
      * discriminate.
    + destruct (Ascii.eqb_spec c "-"%char) as [->|Hm].
      * pose proof (take_digits_split r) as [Hr Hd].
        destruct (take_digits r) as [|c0 d0] eqn:Et; [discriminate|].
        pose proof (digits_value_nonneg _ Hd).
        destruct (skipn _ r); cbn [negb orb]; [|rewrite orb_true_r; discriminate].
        destruct (Z.leb_spec (-1 * digits_value (c0 :: d0)) 0); [|lia].
        rewrite !orb_true_r. discriminate.
      * pose proof (take_digits_split (c :: r)) as [Hr Hd].
        destruct (take_digits (c :: r)) as [|c0 d0] eqn:Et; [discriminate|].
        set (d := c0 :: d0) in *.
        destruct (skipn (List.length d) (c :: r)) as [|? ?]; cbn [negb orb];
          [|rewrite orb_true_r; discriminate].
        rewrite app_nil_r in Hr. rewrite Z.mul_1_l.
        destruct (in_long (digits_value d)) eqn:Hl; cbn [negb orb]; [|discriminate].
        destruct (Z.leb_spec (digits_value d) 0); [discriminate|].
        intros Hq. injection Hq as <-.
        exists sp, [], d. unfold in_long, LONG_MIN in Hl.
        apply andb_prop in Hl as [_ Hl]. apply Z.leb_le in Hl.
        repeat split; auto; try lia.
        -- rewrite Hs, Hr. reflexivity.
        -- discriminate.
  - intros (sp & sg & d & -> & Hsp & Hsg & Hne & Hd & -> & Hv).
    destruct d as [|c d']; [congruence|].
    pose proof Hd as Hc. cbn [all_digits forallb] in Hc. apply andb_prop in Hc as [Hc _].
    destruct (digit_not_special c Hc) as (Hcs & Hcp & Hcm & _).
    destruct (take_digits_skipn_nil _ Hd) as [Ht Hk].
    assert (Hl : in_long (digits_value (c :: d')) = true)
      by (unfold in_long, LONG_MIN; apply andb_true_iff; split; apply Z.leb_le; lia).
    unfold parse_positive_int, strtol10_end.
    destruct Hsg as [-> | ->].
    + rewrite skip_spaces_app by first [exact Hsp | exact Hcs]. cbn [app]. rewrite Hcp, Hcm.
      rewrite Ht, Hk. rewrite Z.mul_1_l, Hl. cbn [negb orb].
      destruct (Z.leb_spec (digits_value (c :: d')) 0); [lia|reflexivity].
    + rewrite skip_spaces_app by first [exact Hsp | reflexivity]. cbn [app].
      change (Ascii.eqb "+" "+") with true. cbv iota.
      rewrite Ht, Hk. rewrite Z.mul_1_l, Hl. cbn [negb orb].
      destruct (Z.leb_spec (digits_value (c :: d')) 0); [lia|reflexivity].
Qed.

(** ** When the press count cannot stop the loop *)

Lemma stream_event_no_limit (cfg : config) (alloc : nat -> bool) (st : mstate) (cur : Z)
  (ev : event) :
  (infinite cfg = true \/ count_limit cfg < 0) ->
  match stream_event cfg alloc st cur ev with
  | Break r _ => r = StopOOM
  | Continue _ => True
  end.
Proof.
  intros Hc.
  assert (HL : forall st3 b, match limit_check cfg st3 b with
                             | Break r _ => r = StopOOM | Continue _ => True end).
  { intros st3 b. unfold limit_check.
    destruct Hc as [Hi | Hn].
    - rewrite Hi. reflexivity.
    - replace (count_limit cfg =? 0) with false by (symmetry; apply Z.eqb_neq; lia).
      replace (0 <? count_limit cfg) with false by (symmetry; apply Z.ltb_ge; lia).
      rewrite !andb_false_r. reflexivity. }
  unfold stream_event.
  destruct (out_mode cfg); try apply HL;
    (destruct (_ <? _)%nat; [destruct (alloc _); [apply HL | reflexivity] | apply HL]).
Qed.

(** With [-i], with a press limit whose [int] value is negative (a [-n]
    argument above [INT_MAX] that wraps, such as [2147483648]), and in
    record mode, the main loop never stops because of the number of
    presses: it ends only on time, end of input, Enter or a failed
    [realloc]. *)
Theorem loop_never_stops_on_count (cfg : config) (maxev : nat) (alloc : nat -> bool)
  (rec_start : Z) (s : list step) (st : mstate) (r : stop) (st' : mstate) (rest : list step) :
  (infinite cfg = true \/ count_limit cfg < 0 \/ record_mode cfg = true) ->
  main_loop cfg maxev alloc rec_start st s = (r, st', rest) ->
  r <> StopLimit.
Proof.
  intros Hc. revert st. induction s as [|stp s IH]; intros st H.
  - cbn in H. injection H as <- _ _. discriminate.
  - cbn [main_loop] in H.
    destruct (record_mode cfg && _); [injection H as <- _ _; discriminate|].
    destruct (res stp) as [|e| |].
    + exact (IH _ H).
    + destruct (record_mode cfg) eqn:Er; [exact (IH _ H)|].
      assert (Hc' : infinite cfg = true \/ count_limit cfg < 0)
        by (destruct Hc as [?|[?|?]]; [left|right|congruence]; assumption).
      pose proof (stream_event_no_limit cfg alloc st (clk stp) e Hc') as Hs.
      destruct (stream_event cfg alloc st (clk stp) e) as [st1|r1 st1].
      * exact (IH _ H).
      * injection H as <- _ _. rewrite Hs. discriminate.
    + injection H as <- _ _. discriminate.
    + injection H as <- _ _. discriminate.
Qed.

Lemma loop_never_stops_on_count_witness :
  let cfg := mkConfig false
               (match parse_positive_int (chars "2147483648") with
                | Some v => wrap32 v | None => 0 end) false 0 false OUT_CSV in
  (infinite cfg = true \/ count_limit cfg < 0 \/ record_mode cfg = true)
  /\ let '(r, st', rest) :=
       main_loop cfg 0 (fun _ => true) 0 init_state
         [mkStep 1 (press 1 1 1); mkStep 2 (press 2 2 2); mkStep 3 (press 3 3 3)] in
     r <> StopLimit.
Proof.
  intros cfg.
  assert (Hc : infinite cfg = true \/ count_limit cfg < 0 \/ record_mode cfg = true)
    by (right; left; vm_compute; reflexivity).
  split; [exact Hc|].
  destruct (main_loop cfg 0 (fun _ => true) 0 init_state
              [mkStep 1 (press 1 1 1); mkStep 2 (press 2 2 2); mkStep 3 (press 3 3 3)])
    as [[r st'] rest] eqn:E.
  exact (loop_never_stops_on_count cfg 0%nat (fun _ => true) 0 _ init_state r st' rest Hc E).
Defined.

(** ** Click mode *)

Lemma near_exact (first ev : event) :
  0 <= x first <= 32767 -> 0 <= y first <= 32767 ->
  0 <= x ev <= 32767 -> 0 <= y ev <= 32767 ->
  near first ev
  = ((x first - x ev) * (x first - x ev) + (y first - y ev) * (y first - y ev) <=? 9).
Proof.
  intros H1 H2 H3 H4. unfold near, int_sub, int_add, int_mul, MULTICLICK_RADIUS.
  rewrite (wrap32_small (x first - x ev)) by (unfold INT_MIN, INT_MAX; lia).
  rewrite (wrap32_small (y first - y ev)) by (unfold INT_MIN, INT_MAX; lia).
  rewrite (wrap32_small ((x first - x ev) * (x first - x ev))) by (unfold INT_MIN, INT_MAX; nia).
  rewrite (wrap32_small ((y first - y ev) * (y first - y ev))) by (unfold INT_MIN, INT_MAX; nia).
  rewrite wrap32_small by (unfold INT_MIN, INT_MAX; nia).
  reflexivity.
Qed.

(** For coordinates between 0 and 32767 the [int] arithmetic of the
    multiclick distance test does not overflow: a follow-up Press is
    accepted exactly when its Euclidean distance to the anchor is at most
    [MULTICLICK_RADIUS] (3). *)
Theorem near_is_euclidean_in_range (first ev : event) :
  0 <= x first <= 32767 -> 0 <= y first <= 32767 ->
  0 <= x ev <= 32767 -> 0 <= y ev <= 32767 ->
  (near first ev = true
   <-> (x first - x ev) ^ 2 + (y first - y ev) ^ 2 <= MULTICLICK_RADIUS ^ 2).
Proof.
  intros H1 H2 H3 H4. rewrite near_exact by assumption.
  unfold MULTICLICK_RADIUS. rewrite !Z.pow_2_r, Z.leb_le. reflexivity.
Qed.

Lemma near_is_euclidean_in_range_witness :
  let a := mkEvent 32767 1 0 EVT_PRESS 0 in
  let b := mkEvent 32765 3 0 EVT_PRESS 1 in
  (0 <= x a <= 32767 /\ 0 <= y a <= 32767 /\ 0 <= x b <= 32767 /\ 0 <= y b <= 32767)
  /\ near a b = true
  /\ (near a b = true
      <-> (x a - x b) ^ 2 + (y a - y b) ^ 2 <= MULTICLICK_RADIUS ^ 2).
Proof.
  intros a b.
  split; [cbn; lia|]. split; [vm_compute; reflexivity|].
  apply near_is_euclidean_in_range; cbn; lia.
Defined.

Lemma presses_is_press (l : list rresult) (e : event) :
  In e (presses l) -> is_press e = true.
Proof.
  induction l as [|r l IH]; [intros []|].
  destruct r as [|e'| |]; cbn [presses flat_map]; try exact IH.
  destruct (is_press e') eqn:E; cbn [app In]; [|exact IH].
  intros [<-|Hi]; [exact E | exact (IH Hi)].
Qed.

(** In JSON and pretty mode, a successful click detection prints a dump
    with mode ["click"], duration 0, [outputs] 1 and a single event, the
    reported Press (its position and button, type ["press"], [dt] 0).  When
    the one-element [calloc] fails, the same event is printed as a CSV line
    instead. *)
Theorem click_json_dump (N : Z) (om : outmode) (dm : bool) (started_at : string)
  (s rest : list rresult) (ev : event) (log : list (option Z)) :
  1 <= N -> (om = OUT_JSON \/ om = OUT_PRETTY) ->
  click_detect N s = (Some ev, rest, log) ->
  let o := click_out (handle_click_mode N om dm started_at true s) in
  json_values "mode" o = [PStr "click"]
  /\ json_values "duration" o = [PFix 0]
  /\ json_values "outputs" o = [PSize 1]
  /\ json_values "x" o = [PInt (x ev)] /\ json_values "y" o = [PInt (y ev)]
  /\ json_values "button" o = [PInt (button ev)]
  /\ json_values "type" o = [PStr "press"]
  /\ json_values "dt" o = [PFix 0]
  /\ click_out (handle_click_mode N om dm started_at false s) = print_csv ev.
Proof.
  intros HN Hom H.
  destruct (click_detect_spec N s rest ev log HN H) as (p & l & _ & Hp & _).
  assert (Hpr : is_press ev = true)
    by (apply (presses_is_press p); rewrite Hp; apply in_or_app; right; left; reflexivity).
  unfold handle_click_mode. rewrite H. cbn [click_out]. unfold click_report.
  destruct ev as [ex ey eb [| |] et]; try discriminate.
  destruct Hom as [-> | ->]; vm_compute;
    repeat split; reflexivity.
Qed.

Lemma click_json_dump_witness :
  let s := [press 5 5 0; REvent (mkEvent 5 5 0 EVT_RELEASE 1); press 6 5 2; REnter] in
  click_detect 2 s = (Some (mkEvent 6 5 0 EVT_PRESS 2), [REnter], [None; Some 500000; Some 500000])
  /\ let o := click_out (handle_click_mode 2 OUT_JSON false "" true s) in
     json_values "mode" o = [PStr "click"]
     /\ json_values "duration" o = [PFix 0]
     /\ json_values "outputs" o = [PSize 1]
     /\ json_values "x" o = [PInt 6] /\ json_values "y" o = [PInt 5]
     /\ json_values "button" o = [PInt 0]
     /\ json_values "type" o = [PStr "press"]
     /\ json_values "dt" o = [PFix 0]
     /\ click_out (handle_click_mode 2 OUT_JSON false "" false s)
        = print_csv (mkEvent 6 5 0 EVT_PRESS 2).
Proof.
  intros s.
  assert (E : click_detect 2 s
              = (Some (mkEvent 6 5 0 EVT_PRESS 2), [REnter], [None; Some 500000; Some 500000]))
    by (vm_compute; reflexivity).
  split; [exact E|].
  exact (click_json_dump 2 OUT_JSON false ""%string s [REnter] (mkEvent 6 5 0 EVT_PRESS 2)
           _ ltac:(lia) (or_introl eq_refl) E).
Defined.

(** [wait_for_first_press] fails (click mode then exits with status 1)
    exactly when Enter, a failed read (end of input, error or signal) comes
    before any Press: Motion and Release events and timeouts before it are
    skipped. *)
Theorem first_press_failure (s rest : list rresult) :
  fst (wait_for_first_press s) = (None, rest) <->
  exists p, presses p = [] /\ forallb (fun r => negb (ends_loop r)) p = true
    /\ ((exists r0, ends_loop r0 = true /\ s = p ++ r0 :: rest) \/ (s = p /\ rest = [])).
Proof.
  revert rest. induction s as [|r s IH]; intros rest.
  - cbn. split.
    + intros E. injection E as <-. exists []. auto.
    + intros (p & _ & _ & [(r0 & _ & E) | (E & ->)]).
      * destruct p; discriminate.
      * reflexivity.
  - cbn [wait_for_first_press].
    destruct r as [|e| |].
    + destruct (wait_for_first_press s) as [[o s1] lg] eqn:W. cbn [fst].
      specialize (IH rest). cbn [fst] in IH. rewrite IH.
      split.
      * intros (p & Hp & Hn & Hs). exists (RTimeout :: p).
        split; [exact Hp|]. split; [cbn [forallb ends_loop negb andb]; exact Hn|].
        destruct Hs as [(r0 & H0 & ->) | (-> & ->)]; [left; eauto | right; auto].
      * intros (p & Hp & Hn & Hs). destruct p as [|r' p].
        -- destruct Hs as [(r0 & H0 & E) | (E & _)]; [|discriminate].
           injection E as <- _. discriminate.
        -- cbn in Hp, Hn. apply andb_prop in Hn as [Hr Hn].
           exists p. split; [|split; [exact Hn|]].
           ++ destruct r'; try discriminate Hr; try exact Hp.
              destruct (is_press e); [discriminate|exact Hp].
           ++ destruct Hs as [(r0 & H0 & E) | (E & ->)].
              ** injection E as <- E. left. eauto.
              ** injection E as <- E. right. auto.
    + destruct (is_press e) eqn:Ep.
      * cbn [fst]. split; [discriminate|].
        intros (p & Hp & _ & Hs). destruct p as [|r' p].
        -- destruct Hs as [(r0 & H0 & E) | (E & _)]; [|discriminate].
           injection E as <- _. discriminate.
        -- destruct Hs as [(r0 & _ & E) | (E & _)]; injection E as <- _;
             cbn in Hp; rewrite Ep in Hp; discriminate.
      * destruct (wait_for_first_press s) as [[o s1] lg] eqn:W. cbn [fst].
        specialize (IH rest). cbn [fst] in IH. rewrite IH.
        split.
        -- intros (p & Hp & Hn & Hs). exists (REvent e :: p).
           split; [rewrite presses_event, Ep; exact Hp|].
           split; [cbn [forallb ends_loop negb andb]; exact Hn|].
           destruct Hs as [(r0 & H0 & ->) | (-> & ->)]; [left; eauto | right; auto].
        -- intros (p & Hp & Hn & Hs). destruct p as [|r' p].
           ++ destruct Hs as [(r0 & H0 & E) | (E & _)]; [|discriminate].
              injection E as <- _. discriminate.
           ++ cbn in Hn. apply andb_prop in Hn as [Hr Hn].
              assert (Hr' : r' = REvent e)
                by (destruct Hs as [(r0 & _ & E) | (E & _)]; injection E as <- _; reflexivity).
              subst r'. cbn in Hp. rewrite Ep in Hp.
              exists p. split; [exact Hp|]. split; [exact Hn|].
              destruct Hs as [(r0 & H0 & E) | (E & ->)].
              ** injection E as E. left. eauto.
              ** injection E as E. right. auto.
    + cbn [fst]. split.
      * intros E. injection E as <-. exists []. split; [reflexivity|]. split; [reflexivity|].
        left. exists RTerm. auto.
      * intros (p & Hp & Hn & Hs). destruct p as [|r' p].
        -- destruct Hs as [(r0 & H0 & E) | (E & _)]; [|discriminate].
           injection E as <- <-. reflexivity.
        -- cbn in Hn. apply andb_prop in Hn as [Hr _].
           destruct Hs as [(r0 & _ & E) | (E & _)]; injection E as <- _; discriminate.
    + cbn [fst]. split.
      * intros E. injection E as <-. exists []. split; [reflexivity|]. split; [reflexivity|].
        left. exists REnter. auto.
      * intros (p & Hp & Hn & Hs). destruct p as [|r' p].
        -- destruct Hs as [(r0 & H0 & E) | (E & _)]; [|discriminate].
           injection E as <- <-. reflexivity.
        -- cbn in Hn. apply andb_prop in Hn as [Hr _].
           destruct Hs as [(r0 & _ & E) | (E & _)]; injection E as <- _; discriminate.
Qed.
(** ** Option processing *)

Lemma opt_step_exit {D} (ppd : list ascii -> option D) (o : opts D) (c : opt)
  (k : Z) (m : string) :
  opt_step ppd o c = OExit k m -> k = 2 /\ m <> "--record and --click are exclusive"%string.
Proof.
  destruct c; cbn;
    repeat match goal with
    | |- context [match ?e with _ => _ end] => destruct e
    end;
    intros Hx; inversion Hx; subst; split; try reflexivity; discriminate.
Qed.

Lemma exclusivity_cases {D} (o : opts D) :
  (exclusivity o = ORun o
   /\ (o_infinite o = true -> o_count_limit o = 0)
   /\ (o_click_mode o = true ->
       o_infinite o = false /\ o_count_limit o = 0 /\ o_record_mode o = false))
  \/ (exists m, exclusivity o = OExit 2 m /\ m <> "--record and --click are exclusive"%string).
Proof.
  unfold exclusivity.
  destruct (o_infinite o), (o_click_mode o), (o_record_mode o);
    destruct (Z.eqb_spec (o_count_limit o) 0); cbn;
    first [ right; eexists; split; [reflexivity | discriminate]
          | left; refine (conj eq_refl (conj _ _)); intros; try discriminate;
            try (refine (conj eq_refl (conj _ eq_refl))); auto ].
Qed.

Lemma getopt_loop_exit {D} (ppd : list ascii -> option D) (o : opts D) (l : list opt)
  (k : Z) (m : string) :
  getopt_loop ppd o l = OExit k m -> k = 2 /\ m <> "--record and --click are exclusive"%string.
Proof.
  revert o. induction l as [|c l IH]; intros o H; cbn in H.
  - destruct (exclusivity_cases o) as [(E & _) | (m' & E & Hm)]; rewrite E in H;
      inversion H; subst; auto.
  - destruct (opt_step ppd o c) as [k' m'| |o'] eqn:E.
    + inversion H; subst. exact (opt_step_exit ppd o c k m E).
    + discriminate.
    + exact (IH o' H).
Qed.

Lemma getopt_loop_run {D} (ppd : list ascii -> option D) (o o' : opts D) (l : list opt) :
  getopt_loop ppd o l = ORun o' ->
  (o_infinite o' = true -> o_count_limit o' = 0)
  /\ (o_click_mode o' = true ->
      o_infinite o' = false /\ o_count_limit o' = 0 /\ o_record_mode o' = false).
Proof.
  revert o. induction l as [|c l IH]; intros o H; cbn in H.
  - destruct (exclusivity_cases o) as [(E & H1 & H2) | (m' & E & _)]; rewrite E in H;
      inversion H; subst; auto.
  - destruct (opt_step ppd o c) eqn:E; try discriminate. exact (IH _ H).
Qed.

Lemma getopt_loop_app {D} (ppd : list ascii -> option D) (o o' : opts D) (l1 l2 : list opt) :
  getopt_loop ppd o (l1 ++ l2) = ORun o' ->
  exists o1, getopt_loop ppd o1 l2 = ORun o'
    /\ (forallb (fun c => negb (is_count_opt c)) l1 = true -> o_count_limit o1 = o_count_limit o).
Proof.
  revert o. induction l1 as [|c l1 IH]; intros o H.
  - exists o. auto.
  - cbn in H. destruct (opt_step ppd o c) as [| |o2] eqn:E; try discriminate.
    destruct (IH o2 H) as (o1 & H1 & H2). exists o1. split; [exact H1|].
    cbn [forallb]. intros Hc. apply andb_prop in Hc as [Hc Hl].
    rewrite (H2 Hl).
    destruct c; cbn in E, Hc; try discriminate;
      repeat match goal with
      | E : context [match ?e with _ => _ end] |- _ => destruct e
      end;
      inversion E; subst; reflexivity.
Qed.

Lemma set_count_same {D} (o : opts D) : set_count o (o_count_limit o) = o.
Proof. destruct o. reflexivity. Qed.

Lemma wrap32_mod0 (v : Z) : v mod 2 ^ 32 = 0 -> wrap32 v = 0.
Proof.
  intros H. unfold wrap32.
  rewrite Z.add_mod, H by (apply Z.pow_nonzero; lia). reflexivity.
Qed.

Lemma getopt_loop_skip_count {D} (ppd : list ascii -> option D) (o : opts D)
  (l1 l2 : list opt) (a : list ascii) (v : Z) :
  parse_positive_int a = Some v -> v mod 2 ^ 32 = 0 -> o_count_limit o = 0 ->
  forallb (fun c => negb (is_count_opt c)) l1 = true ->
  getopt_loop ppd o (l1 ++ OptN a :: l2) = getopt_loop ppd o (l1 ++ l2).
Proof.
  intros Ha Hv. revert o. induction l1 as [|c l1 IH]; intros o Ho Hl.
  - cbn. rewrite Ha, (wrap32_mod0 v Hv), <- Ho, set_count_same. reflexivity.
  - cbn [forallb] in Hl. apply andb_prop in Hl as [Hc Hl].
    cbn [app getopt_loop].
    destruct (opt_step ppd o c) as [| |o2] eqn:E; try reflexivity.
    apply IH; [|exact Hl].
    rewrite <- Ho.
    destruct c; cbn in E, Hc; try discriminate;
      repeat match goal with
      | E : context [match ?e with _ => _ end] |- _ => destruct e
      end;
      inversion E; subst; reflexivity.
Qed.

Lemma getopt_loop_out_mode {D} (ppd : list ascii -> option D) (o o' : opts D) (l : list opt) :
  getopt_loop ppd o l = ORun o' -> o_out_mode o' = out_mode_after (o_out_mode o) l.
Proof.
  revert o. induction l as [|c l IH]; intros o H; cbn in H.
  - destruct (exclusivity_cases o) as [(E & _) | (m' & E & _)]; rewrite E in H;
      inversion H; subst; reflexivity.
  - destruct (opt_step ppd o c) as [| |o2] eqn:E; try discriminate.
    rewrite (IH o2 H).
    destruct c; cbn in E |- *;
      repeat match goal with
      | E : context [match ?e with _ => _ end] |- _ => destruct e
      end;
      inversion E; subst; reflexivity.
Qed.

Lemma getopt_loop_click_kept {D} (ppd : list ascii -> option D) (o o' : opts D) (l : list opt) :
  forallb (fun c => negb (is_click_opt c)) l = true ->
  getopt_loop ppd o l = ORun o' ->
  o_click_mode o' = o_click_mode o /\ o_click_N o' = o_click_N o.
Proof.
  revert o. induction l as [|c l IH]; intros o Hl H; cbn in H.
  - destruct (exclusivity_cases o) as [(E & _) | (m' & E & _)]; rewrite E in H;
      inversion H; subst; auto.
  - cbn [forallb] in Hl. apply andb_prop in Hl as [Hc Hl].
    destruct (opt_step ppd o c) as [| |o2] eqn:E; try discriminate.
    destruct (IH o2 Hl H) as [-> ->].
    destruct c; cbn in E, Hc; try discriminate;
      repeat match goal with
      | E : context [match ?e with _ => _ end] |- _ => destruct e
      end;
      inversion E; subst; auto.
Qed.

(** In the option part of [main], every rejection exits with status 2,
    and the third exclusivity test never fires: its message
    ["--record and --click are exclusive"] is never printed, because the
    test before it already rejects [-r] together with [-c]. *)
Theorem options_reject_with_status_2 {D} (d0 : D) (ppd : list ascii -> option D)
  (l : list opt) (k : Z) (m : string) :
  main_options d0 ppd l = OExit k m ->
  k = 2 /\ m <> "--record and --click are exclusive"%string.
Proof. apply getopt_loop_exit. Qed.

Lemma options_reject_with_status_2_witness :
  main_options 0 (fun _ => Some 1) [OptR (chars "1"); OptC (chars "2")]
    = OExit 2 "--click is exclusive with --infinite/--count/--record"
  /\ 2 = 2 /\ "--click is exclusive with --infinite/--count/--record"%string
              <> "--record and --click are exclusive"%string.
Proof.
  split; [vm_compute; reflexivity|].
  apply (options_reject_with_status_2 0 (fun _ => Some 1) [OptR (chars "1"); OptC (chars "2")]).
  vm_compute. reflexivity.
Defined.

(** When the options are accepted, [-i] comes with a [count_limit] of 0,
    and click mode with neither [-i], a nonzero [count_limit] nor record
    mode. *)
Theorem accepted_options_exclusive {D} (d0 : D) (ppd : list ascii -> option D)
  (l : list opt) (o : opts D) :
  main_options d0 ppd l = ORun o ->
  (o_infinite o = true -> o_count_limit o = 0)
  /\ (o_click_mode o = true ->
      o_infinite o = false /\ o_count_limit o = 0 /\ o_record_mode o = false).
Proof. apply getopt_loop_run. Qed.

Lemma accepted_options_exclusive_witness :
  exists o : opts Z,
    main_options 0 (fun _ => Some 1) [OptI; OptM; OptR (chars "2")] = ORun o
    /\ (o_infinite o = true -> o_count_limit o = 0)
    /\ (o_click_mode o = true ->
        o_infinite o = false /\ o_count_limit o = 0 /\ o_record_mode o = false).
Proof.
  eexists. split; [vm_compute; reflexivity|].
  apply (accepted_options_exclusive 0 (fun _ => Some 1) [OptI; OptM; OptR (chars "2")]).
  vm_compute. reflexivity.
Defined.

(** A [-n] argument whose value is a multiple of 2^32 is truncated to an
    [int] count of 0: when no [-n] came before it, the option has no effect
    at all; so [-i -n 4294967296] is accepted and behaves as [-i]. *)
Theorem count_multiple_of_2_32_ignored {D} (d0 : D) (ppd : list ascii -> option D)
  (l1 l2 : list opt) (a : list ascii) (v : Z) :
  parse_positive_int a = Some v -> v mod 2 ^ 32 = 0 ->
  forallb (fun c => negb (is_count_opt c)) l1 = true ->
  main_options d0 ppd (l1 ++ OptN a :: l2) = main_options d0 ppd (l1 ++ l2).
Proof.
  intros Ha Hv Hl. apply (getopt_loop_skip_count ppd _ l1 l2 a v Ha Hv); auto.
Qed.

Lemma count_multiple_of_2_32_ignored_witness :
  parse_positive_int (chars "4294967296") = Some 4294967296
  /\ 4294967296 mod 2 ^ 32 = 0
  /\ forallb (fun c => negb (is_count_opt c)) [OptI] = true
  /\ main_options 0 (fun _ => None) ([OptI] ++ [OptN (chars "4294967296")])
     = main_options 0 (fun _ => None) ([OptI] ++ []).
Proof.
  refine (conj _ (conj _ (conj _ _))); [vm_compute; reflexivity | reflexivity | reflexivity |].
  apply (count_multiple_of_2_32_ignored 0 (fun _ => None) [OptI] [] (chars "4294967296")
           4294967296); vm_compute; reflexivity.
Defined.

(** When the options are accepted, the output mode is the one of the last
    [-j], [-p] or [-l] given, and CSV when there is none. *)
Theorem last_output_mode_wins {D} (d0 : D) (ppd : list ascii -> option D)
  (l : list opt) (o : opts D) :
  main_options d0 ppd l = ORun o -> o_out_mode o = out_mode_after OUT_CSV l.
Proof. apply getopt_loop_out_mode. Qed.

Lemma last_output_mode_wins_witness :
  exists o : opts Z, main_options 0 (fun _ => None) [OptJ; OptM; OptL; OptP; OptI] = ORun o
    /\ o_out_mode o = out_mode_after OUT_CSV [OptJ; OptM; OptL; OptP; OptI].
Proof.
  eexists. split; [vm_compute; reflexivity|].
  apply (last_output_mode_wins 0 (fun _ => None) [OptJ; OptM; OptL; OptP; OptI]).
  vm_compute. reflexivity.
Defined.

(** The click count is the [int] truncation of the last [-c] argument; a
    value of 0 or below after truncation (an argument such as 4294967296 or
    2147483648) makes click mode report the first Press, as [-c 1]. *)
Theorem click_count_truncated {D} (d0 : D) (ppd : list ascii -> option D)
  (l1 l2 : list opt) (a : list ascii) (v : Z) (o : opts D) :
  parse_positive_int a = Some v ->
  forallb (fun c => negb (is_click_opt c)) l2 = true ->
  main_options d0 ppd (l1 ++ OptC a :: l2) = ORun o ->
  o_click_mode o = true /\ o_click_N o = wrap32 v
  /\ (wrap32 v <= 1 -> forall s, click_detect (o_click_N o) s = click_detect 1 s).
Proof.
  intros Ha Hl H. unfold main_options in H.
  destruct (getopt_loop_app ppd _ _ l1 (OptC a :: l2) H) as (o1 & H1 & _).
  cbn in H1. rewrite Ha in H1.
  destruct (getopt_loop_click_kept ppd _ _ l2 Hl H1) as [Hm Hn].
  cbn in Hm, Hn. rewrite Hn.
  refine (conj Hm (conj eq_refl _)).
  intros Hle s. unfold click_detect.
  replace (1 <? wrap32 v) with false by (symmetry; apply Z.ltb_ge; exact Hle).
  reflexivity.
Qed.

Lemma click_count_truncated_witness :
  exists o : opts Z,
    parse_positive_int (chars "4294967297") = Some 4294967297
    /\ main_options 0 (fun _ => None) ([] ++ [OptC (chars "4294967297")]) = ORun o
    /\ o_click_mode o = true /\ o_click_N o = 1
    /\ (forall s, click_detect (o_click_N o) s = click_detect 1 s).
Proof.
  eexists. split; [vm_compute; reflexivity|]. split; [vm_compute; reflexivity|].
  destruct (click_count_truncated 0 (fun _ => None) [] [] (chars "4294967297") 4294967297
              _ ltac:(vm_compute; reflexivity) eq_refl ltac:(vm_compute; reflexivity))
    as (H1 & H2 & H3).
  refine (conj H1 (conj _ _)); [exact H2 | apply H3; vm_compute; discriminate].
Defined.
(** ** Output file *)

(** The output file handling never truncates an existing file unless
    [-O] is given without [-a]: an existing file with neither [-a] nor [-O]
    ends the program with status 4, and with [-a] (alone or with [-O]) the
    file is opened for appending. *)
Theorem existing_outfile_protected (no_warn a ow : bool) (p : list ascii)
  (file_exists writable open_ok : bool) :
  (file_exists = true -> a = false -> ow = false ->
   outfile_setup no_warn a ow (Some p) file_exists writable open_ok = OutfileErr 4)
  /\ (forall w q, outfile_setup no_warn a ow (Some p) file_exists writable open_ok
                  = OutfileOk w (Some (q, FOpenWrite)) ->
      file_exists = false \/ (ow = true /\ a = false))
  /\ (a = true -> forall w q m,
      outfile_setup no_warn a ow (Some p) file_exists writable open_ok
      = OutfileOk w (Some (q, m)) -> m = FOpenAppend).
Proof.
  unfold outfile_setup.
  refine (conj _ (conj _ _)).
  - intros -> -> ->. reflexivity.
  - intros w q. destruct file_exists, a, ow, writable, open_ok; cbn;
      intros Hx; inversion Hx; auto.
  - intros -> w q m. destruct file_exists, ow, writable, open_ok; cbn;
      intros Hx; inversion Hx; auto.
Qed.

(** ** Terminal modes *)

(** For either motion setting, each mouse mode [enable_mouse_reporting]
    switches on (1000 and 1006, plus 1002 with motion) is switched off
    again both by [restore_terminal] and by the signal handler's
    [minimal_signal_restore]; [restore_terminal] also leaves the alternate
    screen (1049) and, once [cleanup_done] is set, writes nothing. *)
Theorem mouse_modes_restored (motion : bool) :
  map fst (private_modes (enable_mouse_reporting motion))
    = (if motion then [chars "1000"; chars "1002"; chars "1006"]
       else [chars "1000"; chars "1006"])
  /\ (forall m, In (m, true) (private_modes (enable_mouse_reporting motion)) ->
      In (m, false) (private_modes (snd (restore_terminal false)))
      /\ In (m, false) (private_modes minimal_signal_restore))
  /\ In (chars "1049", false) (private_modes (snd (restore_terminal false)))
  /\ (forall c, restore_terminal (fst (restore_terminal c)) = (true, [])).
Proof.
  refine (conj _ (conj _ (conj _ _))).
  - destruct motion; vm_compute; reflexivity.
  - intros m Hm. destruct motion; vm_compute in Hm;
      repeat destruct Hm as [Hm | Hm]; try contradiction;
      inversion Hm; subst; vm_compute; split; tauto.
  - vm_compute. tauto.
  - intros c. destruct c; reflexivity.
Qed.

(** ** The dots *)

Lemma digit_char (k : Z) :
  0 <= k < 10 ->
  is_digit (ascii_of_nat (48 + Z.to_nat k)) = true
  /\ digit_val (ascii_of_nat (48 + Z.to_nat k)) = k.
Proof.
  intros Hk. unfold is_digit, digit_val.
  rewrite nat_ascii_embedding by lia.
  split; [apply andb_true_intro; split; apply Nat.leb_le; lia | lia].
Qed.

Lemma dec_digits_spec (F : nat) (n : Z) (acc : list ascii) :
  (0 < F)%nat -> 0 <= n < 10 ^ Z.of_nat F ->
  exists d, dec_digits F n acc = d ++ acc /\ d <> [] /\ all_digits d = true
    /\ digits_value d = n /\ (List.length d <= F)%nat.
Proof.
  revert n acc. induction F as [|f IH]; intros n acc HF Hn; [lia|].
  cbn [dec_digits].
  assert (Hm : 0 <= n mod 10 < 10) by (apply Z.mod_pos_bound; lia).
  destruct (digit_char (n mod 10) Hm) as [Hd Hv].
  set (c := ascii_of_nat (48 + Z.to_nat (n mod 10))) in *.
  destruct (Z.ltb_spec n 10) as [Hlt | Hge].
  - exists [c]. refine (conj eq_refl (conj _ (conj _ (conj _ _)))).
    + discriminate.
    + unfold all_digits. cbn [forallb]. rewrite Hd. reflexivity.
    + unfold digits_value. cbn [fold_left]. rewrite Hv. rewrite Z.mod_small; lia.
    + cbn. lia.
  - assert (Hf : (0 < f)%nat).
    { destruct f; [|lia]. cbn in Hn. lia. }
    assert (Hq : 0 <= n / 10 < 10 ^ Z.of_nat f).
    { split; [apply Z.div_pos; lia|].
      apply Z.div_lt_upper_bound; [lia|].
      rewrite Nat2Z.inj_succ, Z.pow_succ_r in Hn by lia. lia. }
    destruct (IH (n / 10) (c :: acc) Hf Hq) as (d & E & Hne & Hall & Hval & Hlen).
    exists (d ++ [c]). rewrite E, <- app_assoc.
    refine (conj eq_refl (conj _ (conj _ (conj _ _)))).
    + destruct d; [congruence | discriminate].
    + unfold all_digits. rewrite forallb_app. unfold all_digits in Hall.
      rewrite Hall. cbn [forallb]. rewrite Hd. reflexivity.
    + unfold digits_value. rewrite fold_left_app. cbn [fold_left].
      change (fold_left (fun acc c => acc * 10 + digit_val c) d 0) with (digits_value d).
      rewrite Hval, Hv. pose proof (Z.div_mod n 10). lia.
    + rewrite length_app. cbn. lia.
Qed.

Lemma fmt_d_spec (z : Z) :
  INT_MIN <= z <= INT_MAX ->
  strtol10 (fmt_d z) = Some z /\ (List.length (fmt_d z) <= 11)%nat.
Proof.
  intros Hz. unfold INT_MIN, INT_MAX in Hz. unfold fmt_d.
  destruct (Z.ltb_spec z 0) as [Hn | Hp].
  - destruct (dec_digits_spec 10 (- z) [] ltac:(lia) ltac:(cbn; lia))
      as (d & E & Hne & Hall & Hval & Hlen).
    rewrite E, app_nil_r. split; [|cbn; lia].
    unfold strtol10. cbn [skip_spaces].
    change (is_space "-"%char) with false. cbn iota.
    change (Ascii.eqb "-"%char "+"%char) with false.
    change (Ascii.eqb "-"%char "-"%char) with true. cbv iota.
    rewrite <- (app_nil_r d) at 1. rewrite take_digits_all by exact Hall.
    cbn [take_digits]. rewrite app_nil_r.
    destruct d as [|c r]; [congruence|]. rewrite <- (app_nil_r (c :: r)) in Hval.
    rewrite app_nil_r in Hval. f_equal. lia.
  - destruct (dec_digits_spec 10 z [] ltac:(lia) ltac:(cbn; lia))
      as (d & E & Hne & Hall & Hval & Hlen).
    rewrite E, app_nil_r. split; [|lia].
    rewrite strtol10_digits by assumption. rewrite Hval. reflexivity.
Qed.

(** [draw_mark] never overruns its 128-byte buffer: for any [int]
    position the whole formatted sequence (at most 42 bytes) is written,
    and its cursor-position fields read back as the row [y] and the
    column [x]. *)
Theorem draw_mark_written_whole (px py : Z) :
  INT_MIN <= px <= INT_MAX -> INT_MIN <= py <= INT_MAX ->
  draw_mark px py = Some (mark_text px py)
  /\ (List.length (mark_text px py) <= 42)%nat
  /\ strtol10 (fmt_d py) = Some py /\ strtol10 (fmt_d px) = Some px.
Proof.
  intros Hx Hy.
  destruct (fmt_d_spec px Hx) as [Sx Lx]. destruct (fmt_d_spec py Hy) as [Sy Ly].
  assert (Hlen : (List.length (mark_text px py) = 20 + List.length (fmt_d py)
                                                  + List.length (fmt_d px))%nat).
  { unfold mark_text. rewrite !length_app. cbn. lia. }
  unfold draw_mark, snprintf_write.
  rewrite (proj2 (Nat.ltb_lt _ _)) by lia.
  rewrite (proj2 (Nat.ltb_lt 0 _)) by lia.
  unfold term_write. rewrite firstn_all.
  refine (conj eq_refl (conj _ (conj Sy Sx))). lia.
Qed.

Lemma draw_mark_written_whole_witness :
  (INT_MIN <= -2147483648 <= INT_MAX /\ INT_MIN <= 2147483647 <= INT_MAX)
  /\ draw_mark (-2147483648) 2147483647 = Some (mark_text (-2147483648) 2147483647)
  /\ (List.length (mark_text (-2147483648) 2147483647) <= 42)%nat
  /\ strtol10 (fmt_d 2147483647) = Some 2147483647
  /\ strtol10 (fmt_d (-2147483648)) = Some (-2147483648).
Proof.
  split; [unfold INT_MIN, INT_MAX; lia|].
  apply draw_mark_written_whole; unfold INT_MIN, INT_MAX; lia.
Defined.

(** In the playback, each dot is written whole (at most 76 bytes, well
    within the 256-byte buffer) for any [int] position and colour, at row
    [max 1 y] and column [max 1 x]: positions below 1 are clamped. *)
Theorem playback_dot_clamped (e : event) (R G B : Z) :
  INT_MIN <= x e <= INT_MAX -> INT_MIN <= y e <= INT_MAX ->
  INT_MIN <= R <= INT_MAX -> INT_MIN <= G <= INT_MAX -> INT_MIN <= B <= INT_MAX ->
  exists txt rest, playback_dot e R G B = Some txt
    /\ txt = ESC :: "["%char :: fmt_d (Z.max 1 (y e)) ++ ";"%char :: fmt_d (Z.max 1 (x e))
             ++ "H"%char :: rest
    /\ (List.length txt <= 76)%nat
    /\ strtol10 (fmt_d (Z.max 1 (y e))) = Some (Z.max 1 (y e))
    /\ strtol10 (fmt_d (Z.max 1 (x e))) = Some (Z.max 1 (x e)).
Proof.
  intros Hx Hy HR HG HB.
  assert (Er : (if y e <? 1 then 1 else y e) = Z.max 1 (y e))
    by (destruct (Z.ltb_spec (y e) 1); lia).
  assert (Ec : (if x e <? 1 then 1 else x e) = Z.max 1 (x e))
    by (destruct (Z.ltb_spec (x e) 1); lia).
  assert (Hr : INT_MIN <= Z.max 1 (y e) <= INT_MAX) by (unfold INT_MIN, INT_MAX in *; lia).
  assert (Hc : INT_MIN <= Z.max 1 (x e) <= INT_MAX) by (unfold INT_MIN, INT_MAX in *; lia).
  destruct (fmt_d_spec _ Hr) as [Sr Lr]. destruct (fmt_d_spec _ Hc) as [Sc Lc].
  destruct (fmt_d_spec _ HR) as [_ LR]. destruct (fmt_d_spec _ HG) as [_ LG].
  destruct (fmt_d_spec _ HB) as [_ LB].
  unfold playback_dot. rewrite Er, Ec.
  set (txt := (ESC :: "["%char :: fmt_d (Z.max 1 (y e))) ++ [";"%char]
              ++ fmt_d (Z.max 1 (x e)) ++ ["H"%char]
              ++ (ESC :: chars "[38;2;") ++ fmt_d R ++ [";"%char] ++ fmt_d G ++ [";"%char]
              ++ fmt_d B ++ ["m"%char] ++ BULLET ++ (ESC :: chars "[0m")).
  assert (Hlen : (List.length txt = 21 + List.length (fmt_d (Z.max 1 (y e)))
                  + List.length (fmt_d (Z.max 1 (x e))) + List.length (fmt_d R)
                  + List.length (fmt_d G) + List.length (fmt_d B))%nat).
  { unfold txt. rewrite !length_app. cbn. lia. }
  exists txt.
  eexists. unfold snprintf_write.
  rewrite (proj2 (Nat.ltb_lt _ _)) by lia.
  rewrite (proj2 (Nat.ltb_lt 0 _)) by lia.
  unfold term_write. rewrite firstn_all.
  refine (conj eq_refl (conj _ (conj _ (conj Sr Sc)))); [|lia].
  unfold txt. cbn [app]. reflexivity.
Qed.

Lemma playback_dot_clamped_witness :
  exists txt rest,
    (INT_MIN <= x (mkEvent (-5) 0 0 EVT_PRESS 0) <= INT_MAX
     /\ INT_MIN <= y (mkEvent (-5) 0 0 EVT_PRESS 0) <= INT_MAX
     /\ INT_MIN <= 255 <= INT_MAX /\ INT_MIN <= 0 <= INT_MAX)
    /\ playback_dot (mkEvent (-5) 0 0 EVT_PRESS 0) 255 0 0 = Some txt
    /\ txt = ESC :: "["%char :: fmt_d 1 ++ ";"%char :: fmt_d 1 ++ "H"%char :: rest
    /\ (List.length txt <= 76)%nat.
Proof.
  assert (Hb : forall z, -2147483648 <= z <= 2147483647 -> INT_MIN <= z <= INT_MAX)
    by (unfold INT_MIN, INT_MAX; lia).
  destruct (playback_dot_clamped (mkEvent (-5) 0 0 EVT_PRESS 0) 255 0 0)
    as (txt & rest & H1 & H2 & H3 & _); cbn [x y]; try (apply Hb; lia).
  exists txt, rest.
  refine (conj _ (conj H1 (conj H2 H3))).
  cbn [x y]. refine (conj (Hb _ _) (conj (Hb _ _) (conj (Hb _ _) (Hb _ _)))); lia.
Defined.
